(** * fixup-env: schema normalisation, env-file overlay, validation, redaction

    A shallow embedding of the TypeScript sources
    - [src/schema/types.ts]      (data model),
    - [src/schema/loadSchema.ts] ([loadSchema], [loadZodSchema],
                                  [loadJsonSchema], [parseZodType],
                                  [parseJsonKey]),
    - [src/env/parseEnv.ts]      ([parseEnvFiles], [getDefaultEnvPaths],
                                  [validateEnvValue], [validatePattern]),
    - [src/env/validate.ts]      ([validateEnv]),
    - [src/env/generateExample.ts] ([getExampleValue]),
    - [src/output/formatJson.ts] ([formatJson], [redactSecrets]),
    - [src/output/formatHuman.ts] ([formatHuman], [formatSummary]),
    - [src/utils/redact.ts]      ([redactSecret], [redactSecrets], exported
                                  by [src/index.ts] as [redactSecretsUtil]),
    - [src/utils/files.ts]       ([fileExists], [readFile],
                                  [checkGitignore]),
    - [src/utils/logger.ts], [src/cli.ts] (the command [check]),
    followed by the properties of the written specification that were
    checked against them, and by further properties of the code.

    Modelling conventions.
    - A JavaScript object used as a dictionary ([Record<string, T>]) is a
      [gmap string T]; [Object.entries], [Object.keys] are [map_to_list] and
      its projection.  The iteration order of the host is not modelled, and
      no statement below depends on it.  The map holds the own properties;
      where the code reads the two dictionaries of the orchestrator with
      [in] or [obj[key]], the members that a plain object inherits from
      [Object.prototype] are found as well ([has_property],
      [get_property]).
    - An optional property [f?: T] is an [option T]; [undefined] is [None].
    - A string is the sequence of its code units, one character of a Rocq
      string each.
    - [throw] / [try ... catch] are explicit: a computation that may throw
      has type [Throws A].
    - The built-ins of the host ([Number], [URL], [RegExp],
      [String.prototype.toLowerCase]), the file system and dotenv's [parse]
      are not code of this repository; they are operations of the classes
      [Runtime] and [FileSystem], and every general statement holds for all
      their implementations.  So are dynamic [import] and [JSON.parse]
      (class [ModuleLoader]) and the terminal, its colours and
      [JSON.stringify] (class [Terminal]). *)

From Stdlib Require Import Ascii QArith Qcanon.
From stdpp Require Import base option list strings numbers gmap pretty.

Set Default Proof Using "Type".

(** ** JavaScript preliminaries *)

(** [ToBoolean]: which values count as true in a condition. *)
Class Truthy (A : Type) := truthy : A → bool.
Global Hint Mode Truthy ! : typeclass_instances.

Global Instance bool_truthy : Truthy bool := λ b, b.
Global Instance string_truthy : Truthy string :=
  λ s, match s with EmptyString => false | String _ _ => true end.
(** An array is an object, hence always true. *)
Global Instance array_truthy {A} : Truthy (list A) := λ _, true.
Global Instance optional_truthy {A} `{Truthy A} : Truthy (option A) :=
  λ o, match o with Some a => truthy a | None => false end.

(** Exceptions.  [Throw msg] is a thrown [Error] with that message. *)
Inductive Throws (A : Type) : Type :=
  | Return (a : A)
  | Throw (message : string).
Global Arguments Return {A} a.
Global Arguments Throw {A} message.

Definition bind {A B} (c : Throws A) (k : A → Throws B) : Throws B :=
  match c with
  | Return a => k a
  | Throw msg => Throw msg
  end.

Notation "'try!' x ← c ; k" := (bind c (λ x, k))
  (at level 10, x name, c at level 100, k at level 200,
   format "'try!'  x  ←  c ;  '/' k").

(** [try { body } catch { handler }] where the handler returns a value. *)
Definition try_catch {A} (body : Throws A) (handler : string → A) : A :=
  match body with
  | Return a => a
  | Throw msg => handler msg
  end.

(** [try { body } catch (error) { throw new Error(wrap error.message) }]. *)
Definition try_rethrow {A} (body : Throws A) (wrap : string → string) : Throws A :=
  match body with
  | Return a => Return a
  | Throw msg => Throw (wrap msg)
  end.

(** The double-quote character, as a one-character string. *)
Definition dquote : string := String (Ascii.ascii_of_nat 34) "".

(** JavaScript numbers, up to rounding: a rational, an infinity or NaN. *)
Inductive number : Type :=
  | NaN
  | Infinity (negative : bool)
  | Finite (q : Qc).

Global Instance number_eq_dec : EqDecision number.
Proof. solve_decision. Defined.

Definition isNaN (x : number) : bool :=
  match x with NaN => true | _ => false end.

Definition Number_isInteger (x : number) : bool :=
  match x with
  | Finite q => bool_decide (Qden (this q) = 1%positive)
  | _ => false
  end.

(** [x < y]; every comparison with NaN is false. *)
Definition number_lt (x y : number) : bool :=
  match x, y with
  | NaN, _ | _, NaN => false
  | Infinity true, Infinity true => false
  | Infinity true, _ => true
  | _, Infinity true => false
  | Infinity false, _ => false
  | Finite _, Infinity false => true
  | Finite p, Finite q => bool_decide (p < q)%Qc
  end.

(** [x === y] on numbers. *)
Definition number_strict_eq (x y : number) : bool :=
  match x, y with
  | NaN, _ | _, NaN => false
  | _, _ => bool_decide (x = y)
  end.

Definition number_of_Z (z : Z) : number := Finite (Qc_of_Z z).

(** ** Data model ([src/schema/types.ts]) *)

(** [string | number | boolean], the type of [default] and [example]. *)
Inductive Scalar : Type :=
  | ScalarString (s : string)
  | ScalarNumber (n : number)
  | ScalarBoolean (b : bool).

Module SchemaKey.
(** [type] is kept as the string the object carries at run time: the JSON
      front-end copies it unchecked, and [validateEnvValue] has a [default:]
      branch for anything outside the eight declared names. *)
Record t : Type := mk {
    name : string;
    type : string;
    description : option string;
    default : option Scalar;
    example : option Scalar;
    enum : option (list string);
    pattern : option string;
    required : bool;
    secret : bool;
    deprecated : option bool;
    replacedBy : option string;
    min : option number;
    max : option number;
  }.

(** Property assignments [key.f = v]. *)
Definition set_type (v : string) (k : t) : t :=
  mk (name k) v (description k) (default k) (example k) (enum k) (pattern k)
     (required k) (secret k) (deprecated k) (replacedBy k) (min k) (max k).
Definition set_description (v : string) (k : t) : t :=
  mk (name k) (type k) (Some v) (default k) (example k) (enum k) (pattern k)
     (required k) (secret k) (deprecated k) (replacedBy k) (min k) (max k).
Definition set_default (v : Scalar) (k : t) : t :=
  mk (name k) (type k) (description k) (Some v) (example k) (enum k) (pattern k)
     (required k) (secret k) (deprecated k) (replacedBy k) (min k) (max k).
Definition set_example (v : Scalar) (k : t) : t :=
  mk (name k) (type k) (description k) (default k) (Some v) (enum k) (pattern k)
     (required k) (secret k) (deprecated k) (replacedBy k) (min k) (max k).
Definition set_enum (v : list string) (k : t) : t :=
  mk (name k) (type k) (description k) (default k) (example k) (Some v) (pattern k)
     (required k) (secret k) (deprecated k) (replacedBy k) (min k) (max k).
Definition set_pattern (v : string) (k : t) : t :=
  mk (name k) (type k) (description k) (default k) (example k) (enum k) (Some v)
     (required k) (secret k) (deprecated k) (replacedBy k) (min k) (max k).
Definition set_required (v : bool) (k : t) : t :=
  mk (name k) (type k) (description k) (default k) (example k) (enum k) (pattern k)
     v (secret k) (deprecated k) (replacedBy k) (min k) (max k).
Definition set_secret (v : bool) (k : t) : t :=
  mk (name k) (type k) (description k) (default k) (example k) (enum k) (pattern k)
     (required k) v (deprecated k) (replacedBy k) (min k) (max k).
Definition set_deprecated (v : bool) (k : t) : t :=
  mk (name k) (type k) (description k) (default k) (example k) (enum k) (pattern k)
     (required k) (secret k) (Some v) (replacedBy k) (min k) (max k).
Definition set_replacedBy (v : string) (k : t) : t :=
  mk (name k) (type k) (description k) (default k) (example k) (enum k) (pattern k)
     (required k) (secret k) (deprecated k) (Some v) (min k) (max k).
Definition set_min (v : number) (k : t) : t :=
  mk (name k) (type k) (description k) (default k) (example k) (enum k) (pattern k)
     (required k) (secret k) (deprecated k) (replacedBy k) (Some v) (max k).
Definition set_max (v : number) (k : t) : t :=
  mk (name k) (type k) (description k) (default k) (example k) (enum k) (pattern k)
     (required k) (secret k) (deprecated k) (replacedBy k) (min k) (Some v).
End SchemaKey.

Inductive SchemaSource : Type := zod | json.

Module Schema.
Record t : Type := mk {
    keys : gmap string SchemaKey.t;
    source : SchemaSource;
    path : string;
  }.
End Schema.

Inductive IssueType : Type :=
  | missing | type_ | unknown | deprecated | pattern.

Global Instance IssueType_eq_dec : EqDecision IssueType.
Proof. solve_decision. Defined.

Module ValidationIssue.
Record t : Type := mk {
    key : string;
    type : IssueType;
    message : string;
    replacedBy : option string;
  }.
End ValidationIssue.

Global Instance ValidationIssue_eq_dec : EqDecision ValidationIssue.t.
Proof. solve_decision. Defined.

Module Stats.
Record t : Type := mk {
    checked : nat;
    missing : nat;
    deprecated : nat;
    unknown : nat;
  }.
End Stats.

Module ValidationResult.
Record t : Type := mk {
    ok : bool;
    errors : list ValidationIssue.t;
    warnings : list ValidationIssue.t;
    files : list string;
    stats : Stats.t;
  }.
End ValidationResult.

(** ** The fluent front-end ([src/schema/loadSchema.ts]) *)

(** The validator tree of the fluent library, restricted to what
    [parseZodType] inspects: the node class ([instanceof]), the
    [description] getter, [_def.meta.secret], [_def.checks],
    [_def.values], [_def.innerType] and [_def.defaultValue]. *)
Inductive StringCheck : Type :=
  | check_url
  | check_email
  | check_regex (source : string)
  | check_other_string (kind : string).

Inductive NumberCheck : Type :=
  | check_int
  | check_min (value : number)
  | check_max (value : number)
  | check_other_number (kind : string).

Record ZodAnnotations : Type := annotations {
  zod_description : option string;
  zod_meta_secret : bool;
}.

Inductive ZodTypeAny : Type :=
  | ZodString (a : ZodAnnotations) (checks : list StringCheck)
  | ZodNumber (a : ZodAnnotations) (checks : list NumberCheck)
  | ZodBoolean (a : ZodAnnotations)
  | ZodEnum (a : ZodAnnotations) (values : list string)
  | ZodOptional (a : ZodAnnotations) (innerType : ZodTypeAny)
  | ZodDefault (a : ZodAnnotations) (innerType : ZodTypeAny)
               (defaultValue : unit → Scalar)
  | ZodOther (a : ZodAnnotations).

Definition zod_annotations (zodType : ZodTypeAny) : ZodAnnotations :=
  match zodType with
  | ZodString a _ | ZodNumber a _ | ZodBoolean a | ZodEnum a _
  | ZodOptional a _ | ZodDefault a _ _ | ZodOther a => a
  end.

Definition is_check_url (c : StringCheck) : bool :=
  match c with check_url => true | _ => false end.
Definition is_check_email (c : StringCheck) : bool :=
  match c with check_email => true | _ => false end.
Definition is_check_regex (c : StringCheck) : bool :=
  match c with check_regex _ => true | _ => false end.
Definition is_check_int (c : NumberCheck) : bool :=
  match c with check_int => true | _ => false end.
Definition is_check_min (c : NumberCheck) : bool :=
  match c with check_min _ => true | _ => false end.
Definition is_check_max (c : NumberCheck) : bool :=
  match c with check_max _ => true | _ => false end.

(** [checks.some(p)] and [checks.find(p)]. *)
Definition some {A} (p : A → bool) (l : list A) : bool := existsb p l.
Definition find {A} (p : A → bool) (l : list A) : option A := List.find p l.

(** [check.value] of a [min] / [max] check. *)
Definition check_value (c : NumberCheck) : option number :=
  match c with
  | check_min v | check_max v => Some v
  | _ => None
  end.

Definition string_branch (checks : list StringCheck) (key : SchemaKey.t)
  : SchemaKey.t :=
  let key := SchemaKey.set_type "string" key in
  let key := if some is_check_url checks
             then SchemaKey.set_type "url" key else key in
  let key := if some is_check_email checks
             then SchemaKey.set_type "email" key else key in
  match find is_check_regex checks with
  | Some (check_regex source) => SchemaKey.set_pattern source key
  | _ => key
  end.

Definition number_branch (checks : list NumberCheck) (key : SchemaKey.t)
  : SchemaKey.t :=
  let key := SchemaKey.set_type "number" key in
  let key := if some is_check_int checks
             then SchemaKey.set_type "int" key else key in
  let minCheck := find is_check_min checks ≫= check_value in
  let maxCheck := find is_check_max checks ≫= check_value in
  let key :=
    match minCheck, maxCheck with
    | Some lo, Some hi =>
        if number_strict_eq lo (number_of_Z 1) &&
           number_strict_eq hi (number_of_Z 65535)
        then SchemaKey.set_type "port" key else key
    | _, _ => key
    end in
  let key := match minCheck with
             | Some lo => SchemaKey.set_min lo key | None => key end in
  match maxCheck with
  | Some hi => SchemaKey.set_max hi key | None => key
  end.

(** [parseZodType].  On a wrapper node the function assigns to its local
    [key] and then returns the result of the recursive call on the inner
    node, which starts from a fresh [key]. *)
Fixpoint parseZodType (keyName : string) (zodType : ZodTypeAny)
  : SchemaKey.t :=
  let key : SchemaKey.t :=
    SchemaKey.mk keyName "string" None None None None None
                 true false None None None None in
  let key := match zod_description (zod_annotations zodType) with
             | Some d => SchemaKey.set_description d key
             | None => key
             end in
  let key := match zodType with
             | ZodDefault _ _ defaultValue =>
                 SchemaKey.set_default (defaultValue ()) key
             | _ => key
             end in
  match zodType with
  | ZodOptional _ innerType | ZodDefault _ innerType _ =>
      let key := SchemaKey.set_required false key in
      parseZodType keyName innerType
  | _ =>
      let key := if zod_meta_secret (zod_annotations zodType)
                 then SchemaKey.set_secret true key else key in
      match zodType with
      | ZodString _ checks => string_branch checks key
      | ZodNumber _ checks => number_branch checks key
      | ZodBoolean _ => SchemaKey.set_type "boolean" key
      | ZodEnum _ values =>
          SchemaKey.set_enum values (SchemaKey.set_type "enum" key)
      | _ => key
      end
  end.

(** The loop of [loadZodSchema] over [schema.shape], once the module has
    been imported and its export found to be an object schema. *)
Definition loadZodShape (filePath : string) (shape : gmap string ZodTypeAny)
  : Schema.t :=
  Schema.mk (map_imap (λ keyName zodType, Some (parseZodType keyName zodType))
                      shape)
            zod filePath.

(** ** The declarative front-end *)

(** One entry under ["properties"], with the fields and field types of
    the documented file format; a field that is absent is [None]. *)
Module JsonKeyDef.
Record t : Type := mk {
  type : option string;
  description : option string;
  required : option bool;
  optional : option bool;
  default : option Scalar;
  example : option Scalar;
  enum : option (list string);
  pattern : option string;
  deprecated : option bool;
  replacedBy : option string;
  secret : option bool;
  min : option number;
  max : option number;
}.
End JsonKeyDef.

(** [a || b] on an optional string. *)
Definition or_else (a : option string) (b : string) : string :=
  match a with
  | Some s => if truthy s then s else b
  | None => b
  end.

Definition parseJsonKey (keyName : string) (keyDef : JsonKeyDef.t)
  : SchemaKey.t :=
  let key : SchemaKey.t :=
    SchemaKey.mk keyName (or_else (JsonKeyDef.type keyDef) "string")
                 None None None None None
                 (negb (truthy (JsonKeyDef.optional keyDef)))
                 (truthy (JsonKeyDef.secret keyDef))
                 None None None None in
  let key := match JsonKeyDef.description keyDef with
             | Some d => if truthy d then SchemaKey.set_description d key else key
             | None => key end in
  let key := match JsonKeyDef.default keyDef with
             | Some v => SchemaKey.set_default v key | None => key end in
  let key := match JsonKeyDef.example keyDef with
             | Some v => SchemaKey.set_example v key | None => key end in
  let key := match JsonKeyDef.enum keyDef with
             | Some l => SchemaKey.set_enum l key | None => key end in
  let key := match JsonKeyDef.pattern keyDef with
             | Some p => if truthy p then SchemaKey.set_pattern p key else key
             | None => key end in
  let key := match JsonKeyDef.deprecated keyDef with
             | Some d => if truthy d then SchemaKey.set_deprecated d key else key
             | None => key end in
  let key := match JsonKeyDef.replacedBy keyDef with
             | Some r => if truthy r then SchemaKey.set_replacedBy r key else key
             | None => key end in
  let key := match JsonKeyDef.min keyDef with
             | Some v => SchemaKey.set_min v key | None => key end in
  match JsonKeyDef.max keyDef with
  | Some v => SchemaKey.set_max v key | None => key
  end.

(** The loop of [loadJsonSchema] over [jsonSchema.properties]; a missing
    ["properties"] container throws, and the enclosing handler rewraps. *)
Definition loadJsonProperties (filePath : string)
    (properties : option (gmap string JsonKeyDef.t)) : Throws Schema.t :=
  try_rethrow
    (match properties with
     | None => Throw ("JSON schema must have a " +:+ dquote +:+ "properties"
                      +:+ dquote +:+ " object")
     | Some props =>
         Return (Schema.mk
                   (map_imap (λ keyName keyDef, Some (parseJsonKey keyName keyDef))
                             props)
                   json filePath)
     end)
    (λ msg, "Failed to load JSON schema: " +:+ msg).

(** ** The host *)

(** Built-ins of the JavaScript host that the validator calls. *)
Class Runtime : Type := {
  (** [Number(value)] *)
  Number : string → number;
  (** the text of a number inside a template literal *)
  number_toString : number → string;
  (** [value.toLowerCase()] *)
  toLowerCase : string → string;
  (** [new URL(value)], which throws on a string that is no absolute URL *)
  URL_new : string → Throws unit;
  (** compiled regular expressions, [new RegExp(pattern)] (which throws a
      [SyntaxError] on an invalid pattern) and [regex.test(value)] *)
  RegExp : Type;
  RegExp_new : string → Throws RegExp;
  RegExp_test : RegExp → string → bool;
  (** the empty pattern is a valid regular expression *)
  RegExp_new_empty : ∃ regex, RegExp_new "" = Return regex;
}.

(** ** The type validator ([src/env/parseEnv.ts]) *)

Module CheckResult.
Record t : Type := mk {
  valid : bool;
  error : option string;
}.
End CheckResult.

Definition Valid : CheckResult.t := CheckResult.mk true None.
Definition Invalid (error : string) : CheckResult.t :=
  CheckResult.mk false (Some error).

(** A value between double quotes, as the error messages print it. *)
Definition quoted (value : string) : string := dquote +:+ value +:+ dquote.

(** [array.join(', ')] *)
Definition join (sep : string) (l : list string) : string := String.concat sep l.

(** [array.includes(x)] on strings. *)
Definition includes (l : list string) (x : string) : bool :=
  bool_decide (x ∈ l).

(** The class [[^\s@]] of the e-mail expression, on code units below 256. *)
Definition is_space (c : ascii) : bool :=
  let n := Ascii.nat_of_ascii c in
  bool_decide (n = 9 ∨ n = 10 ∨ n = 11 ∨ n = 12 ∨ n = 13 ∨ n = 32 ∨ n = 160)%nat.
Definition is_at (c : ascii) : bool := bool_decide (c = "@"%char).
Definition is_dot (c : ascii) : bool := bool_decide (c = "."%char).
Definition plain (c : ascii) : bool := negb (is_space c || is_at c).

(** [/^[^\s@]+@[^\s@]+\.[^\s@]+$/.test(value)]: a non-empty plain run, one
    [@], and a plain run that has a dot with a plain character on either
    side. *)
Fixpoint domain_ok (d : list ascii) : bool :=
  match d with
  | c :: ((c' :: rest) as tl) =>
      plain c &&
      ((is_dot c' && negb (bool_decide (rest = [])) && forallb plain rest)
       || domain_ok tl)
  | _ => false
  end.
Fixpoint local_then_domain (seen : bool) (l : list ascii) : bool :=
  match l with
  | [] => false
  | c :: rest =>
      if is_at c then seen && domain_ok rest
      else plain c && local_then_domain true rest
  end.
Definition emailRegex_test (value : string) : bool :=
  local_then_domain false (String.list_ascii_of_string value).

Definition booleanWords : list string :=
  ["true"; "false"; "1"; "0"; "yes"; "no"; "on"; "off"].

Section validator.
Context `{Runtime}.

(** [bound !== undefined && test bound] *)
Definition defined_and (bound : option number) (test : number → bool) : bool :=
  match bound with
  | Some b => test b
  | None => false
  end.

(** [`${keyDef.min}`] *)
Definition bound_toString (bound : option number) : string :=
  match bound with
  | Some b => number_toString b
  | None => "undefined"
  end.

(** The branch [case 'number': case 'int':]. *)
Definition validateNumber (value : string) (keyDef : SchemaKey.t)
  : CheckResult.t :=
  let num := Number value in
  if isNaN num then
    Invalid ("Expected number, got " +:+ quoted value)
  else if bool_decide (SchemaKey.type keyDef = "int")
          && negb (Number_isInteger num) then
    Invalid ("Expected integer, got " +:+ quoted value)
  else if defined_and (SchemaKey.min keyDef) (λ lo, number_lt num lo) then
    Invalid ("Value " +:+ number_toString num +:+ " is below minimum "
             +:+ bound_toString (SchemaKey.min keyDef))
  else if defined_and (SchemaKey.max keyDef) (λ hi, number_lt hi num) then
    Invalid ("Value " +:+ number_toString num +:+ " is above maximum "
             +:+ bound_toString (SchemaKey.max keyDef))
  else Valid.

(** [validateEnvValue(value, keyDef)] *)
Definition validateEnvValue (value : string) (keyDef : SchemaKey.t)
  : CheckResult.t :=
  if negb (truthy value) && SchemaKey.required keyDef then
    Invalid "Required key missing"
  else if negb (truthy value) then
    Valid
  else
    let type := SchemaKey.type keyDef in
    if bool_decide (type = "string") then Valid
    else if bool_decide (type = "number") || bool_decide (type = "int") then
      validateNumber value keyDef
    else if bool_decide (type = "boolean") then
      let lowerValue := toLowerCase value in
      if negb (includes booleanWords lowerValue) then
        Invalid ("Expected boolean, got " +:+ quoted value)
      else Valid
    else if bool_decide (type = "url") then
      try_catch (try! _ ← URL_new value; Return Valid)
                (λ _, Invalid ("Expected valid URL, got " +:+ quoted value))
    else if bool_decide (type = "email") then
      if negb (emailRegex_test value) then
        Invalid ("Expected valid email, got " +:+ quoted value)
      else Valid
    else if bool_decide (type = "enum") then
      match SchemaKey.enum keyDef with
      | Some allowed =>
          if negb (includes allowed value) then
            Invalid ("Expected one of [" +:+ join ", " allowed +:+ "], got "
                     +:+ quoted value)
          else Valid
      | None =>
          Invalid ("Expected one of [undefined], got " +:+ quoted value)
      end
    else if bool_decide (type = "port") then
      let port := Number value in
      if isNaN port || negb (Number_isInteger port)
         || number_lt port (number_of_Z 1)
         || number_lt (number_of_Z 65535) port then
        Invalid ("Expected port number (1-65535), got " +:+ quoted value)
      else Valid
    else Valid.

(** [validatePattern(value, pattern)]: the whole body is inside [try], and
    the handler returns. *)
Definition validatePattern (value pattern : string) : CheckResult.t :=
  try_catch
    (try! regex ← RegExp_new pattern;
     if negb (RegExp_test regex value) then
       Return (Invalid ("Value does not match pattern: " +:+ pattern))
     else Return Valid)
    (λ _, Invalid ("Invalid regex pattern: " +:+ pattern)).

End validator.

(** ** The validation orchestrator ([src/env/validate.ts]) *)

Module Options.
Record t : Type := mk {
  strict : option bool;
  failOnWarn : option bool;
}.
End Options.

(** [list.filter(e => e.type === kind).length] *)
Definition count_type (kind : IssueType) (l : list ValidationIssue.t) : nat :=
  length (filter (λ e, ValidationIssue.type e = kind) l).

Definition deprecationMessage (replacedBy : option string) : string :=
  match replacedBy with
  | Some r => if truthy r then "Deprecated. Use " +:+ r +:+ " instead"
              else "This key is deprecated"
  | None => "This key is deprecated"
  end.

(** Property access on the two dictionaries.  [env] and [schema.keys] are
    plain objects: besides their own properties they have the members that
    every plain object inherits from [Object.prototype].  These are the
    names that ECMAScript (with its annex B) gives to that object; a host
    whose [Object.prototype] was added to is not considered. *)
Definition Object_prototype_names : list string :=
  ["constructor"; "__defineGetter__"; "__defineSetter__"; "hasOwnProperty";
   "__lookupGetter__"; "__lookupSetter__"; "isPrototypeOf";
   "propertyIsEnumerable"; "toString"; "valueOf"; "__proto__";
   "toLocaleString"].

Definition inherited (keyName : string) : bool :=
  bool_decide (keyName ∈ Object_prototype_names).

(** [keyName in obj] *)
Definition has_property {V} (obj : gmap string V) (keyName : string) : bool :=
  bool_decide (is_Some (obj !! keyName)) || inherited keyName.

(** [obj[keyName]]: the own property, else the inherited member, else
    [undefined]. *)
Inductive Property (V : Type) : Type :=
  | OwnProperty (v : V)
  | InheritedMember
  | NoProperty.
Global Arguments OwnProperty {V} v.
Global Arguments InheritedMember {V}.
Global Arguments NoProperty {V}.

Definition get_property {V} (obj : gmap string V) (keyName : string)
  : Property V :=
  match obj !! keyName with
  | Some v => OwnProperty v
  | None => if inherited keyName then InheritedMember else NoProperty
  end.

Section orchestrator.
Context `{Runtime}.

(** Body of the first loop: [errors.push] of a [missing] issue. *)
Definition checkMissing (env : gmap string string)
    (errors : list ValidationIssue.t) (entry : string * SchemaKey.t)
  : list ValidationIssue.t :=
  let '(keyName, keyDef) := entry in
  if SchemaKey.required keyDef && negb (has_property env keyName)
  then errors ++ [ValidationIssue.mk keyName missing "Required key missing" None]
  else errors.

(** Body of the second loop, on the pair of arrays [(errors, warnings)].
    [error!] is the non-null assertion on the optional message.

    When [schema.keys[keyName]] is an inherited member (a built-in
    function, or [Object.prototype] itself for [__proto__]), [keyDef] is
    true in the condition and has none of the properties [required],
    [type], [pattern] and [deprecated]: [validateEnvValue] returns valid,
    from its second line on an empty value and from the [default:] branch
    on any other, and neither the pattern nor the deprecation is looked
    at.  Nothing is pushed. *)
Definition checkEntry (options : Options.t) (schema : Schema.t)
    (acc : list ValidationIssue.t * list ValidationIssue.t)
    (entry : string * string)
  : list ValidationIssue.t * list ValidationIssue.t :=
  let '(errors, warnings) := acc in
  let '(keyName, value) := entry in
  match get_property (Schema.keys schema) keyName with
  | OwnProperty keyDef =>
      let typeValidation := validateEnvValue value keyDef in
      let errors :=
        if negb (CheckResult.valid typeValidation)
        then errors ++ [ValidationIssue.mk keyName type_
                          (default "" (CheckResult.error typeValidation)) None]
        else errors in
      let errors :=
        match SchemaKey.pattern keyDef with
        | Some pattern_ =>
            if truthy pattern_ then
              let patternValidation := validatePattern value pattern_ in
              if negb (CheckResult.valid patternValidation)
              then errors ++ [ValidationIssue.mk keyName pattern
                                (default "" (CheckResult.error patternValidation))
                                None]
              else errors
            else errors
        | None => errors
        end in
      let warnings :=
        if truthy (SchemaKey.deprecated keyDef)
        then warnings ++ [ValidationIssue.mk keyName deprecated
                            (deprecationMessage (SchemaKey.replacedBy keyDef))
                            (SchemaKey.replacedBy keyDef)]
        else warnings in
      (errors, warnings)
  | InheritedMember => (errors, warnings)
  | NoProperty =>
      let issue := ValidationIssue.mk keyName unknown
                     "Unknown key not defined in schema" None in
      if truthy (Options.strict options)
      then (errors ++ [issue], warnings)
      else (errors, warnings ++ [issue])
  end.

(** [validateEnv(env, schema, options)] *)
Definition validateEnv (env : gmap string string) (schema : Schema.t)
    (options : Options.t) : ValidationResult.t :=
  let envKeys := (map_to_list env).*1 in
  let errors := foldl (checkMissing env) [] (map_to_list (Schema.keys schema)) in
  let '(errors, warnings) :=
    foldl (checkEntry options schema) (errors, []) (map_to_list env) in
  let stats :=
    Stats.mk (length envKeys)
             (count_type missing errors)
             (count_type deprecated warnings)
             (count_type unknown warnings) in
  let hasErrors := bool_decide (0 < length errors) in
  let hasWarnings := bool_decide (0 < length warnings) in
  let shouldFail := hasErrors || (truthy (Options.failOnWarn options) && hasWarnings) in
  ValidationResult.mk (negb shouldFail) errors warnings (map_to_list env).*1 stats.

(** What one iteration appends: the issues of one schema entry in the
    first loop, and of one env entry in the second. *)
Definition missingOf (env : gmap string string) (entry : string * SchemaKey.t)
  : list ValidationIssue.t :=
  checkMissing env [] entry.

Definition entryErrors (options : Options.t) (schema : Schema.t)
    (entry : string * string) : list ValidationIssue.t :=
  (checkEntry options schema ([], []) entry).1.

Definition entryWarnings (options : Options.t) (schema : Schema.t)
    (entry : string * string) : list ValidationIssue.t :=
  (checkEntry options schema ([], []) entry).2.

(** The three steps of the second loop on a declared key, one by one. *)
Definition typeIssues (keyName value : string) (keyDef : SchemaKey.t)
  : list ValidationIssue.t :=
  let typeValidation := validateEnvValue value keyDef in
  if negb (CheckResult.valid typeValidation)
  then [ValidationIssue.mk keyName type_
          (default "" (CheckResult.error typeValidation)) None]
  else [].

Definition patternIssues (keyName value : string) (keyDef : SchemaKey.t)
  : list ValidationIssue.t :=
  match SchemaKey.pattern keyDef with
  | Some pattern_ =>
      if truthy pattern_ then
        let patternValidation := validatePattern value pattern_ in
        if negb (CheckResult.valid patternValidation)
        then [ValidationIssue.mk keyName pattern
                (default "" (CheckResult.error patternValidation)) None]
        else []
      else []
  | None => []
  end.

Definition deprecationIssues (keyName : string) (keyDef : SchemaKey.t)
  : list ValidationIssue.t :=
  if truthy (SchemaKey.deprecated keyDef)
  then [ValidationIssue.mk keyName deprecated
          (deprecationMessage (SchemaKey.replacedBy keyDef))
          (SchemaKey.replacedBy keyDef)]
  else [].

End orchestrator.

Definition unknownIssue (keyName : string) : ValidationIssue.t :=
  ValidationIssue.mk keyName unknown "Unknown key not defined in schema" None.

(** The number of issues of a given kind reported for a given key. *)
Definition count_issue (keyName : string) (kind : IssueType)
    (l : list ValidationIssue.t) : nat :=
  length (filter (λ e, ValidationIssue.key e = keyName
                       ∧ ValidationIssue.type e = kind) l).

(** ** The value parser: reading and overlaying env files *)

(** The file system, [path.resolve] and dotenv's [parse]. *)
Class FileSystem : Type := {
  resolve : string → string;
  existsSync : string → bool;
  readFileSync : string → Throws string;
  parse : string → Throws (gmap string string);
}.

Module EnvFile.
Record t : Type := mk {
  path : string;
  exists_ : bool;
  content : gmap string string;
}.
End EnvFile.

Module ParsedEnv.
Record t : Type := mk {
  files : list EnvFile.t;
  merged : gmap string string;
}.
End ParsedEnv.

(** [Object.assign(target, source)]: every own property of [source] is
    written to [target]. *)
Definition Object_assign {V} (target source : gmap string V) : gmap string V :=
  source ∪ target.

Section parser.
Context `{FileSystem}.

(** The body of the loop up to [files.push]: the record of one path. *)
Definition readEnvFile (envPath : string) : Throws EnvFile.t :=
  let fullPath := resolve envPath in
  let exists_ := existsSync fullPath in
  try! content ←
    (if exists_ then
       try_rethrow
         (try! fileContent ← readFileSync fullPath; parse fileContent)
         (λ msg, "Failed to parse " +:+ envPath +:+ ": " +:+ msg)
     else Return ∅);
  Return (EnvFile.mk fullPath exists_ content).

(** The loop of [parseEnvFiles] on its two accumulators. *)
Fixpoint parseEnvFiles_from (files : list EnvFile.t)
    (merged : gmap string string) (envPaths : list string)
  : Throws ParsedEnv.t :=
  match envPaths with
  | [] => Return (ParsedEnv.mk files merged)
  | envPath :: rest =>
      try! file ← readEnvFile envPath;
      parseEnvFiles_from (files ++ [file])
                         (Object_assign merged (EnvFile.content file)) rest
  end.

Definition parseEnvFiles (envPaths : list string) : Throws ParsedEnv.t :=
  parseEnvFiles_from [] ∅ envPaths.

End parser.

(** ** Redaction *)

Local Set Warnings "-register-all".

(** Values of type [any]. An object is the list of its own enumerable
    properties, in [Object.entries] order, with distinct keys. *)
Inductive JsValue : Type :=
  | JsUndefined
  | JsNull
  | JsBoolean (b : bool)
  | JsNumber (n : number)
  | JsString (s : string)
  | JsArray (items : list JsValue)
  | JsObject (fields : list (string * JsValue)).

(** [typeof v === 'object' && v !== null] *)
Definition is_object (v : JsValue) : bool :=
  match v with JsArray _ | JsObject _ => true | _ => false end.

(** [typeof v === 'string'] *)
Definition is_string (v : JsValue) : bool :=
  match v with JsString _ => true | _ => false end.

(** [obj[key]] on the own properties of an object. *)
Fixpoint get (key : string) (fields : list (string * JsValue)) : option JsValue :=
  match fields with
  | [] => None
  | (k, v) :: rest => if bool_decide (k = key) then Some v else get key rest
  end.

(** [schema.keys?.[key]?.secret] *)
Definition is_secret (schema : Schema.t) (key : string) : bool :=
  match Schema.keys schema !! key with
  | Some keyDef => SchemaKey.secret keyDef
  | None => false
  end.

(** [redactSecrets(obj, schema)] of [src/output/formatJson.ts]. *)
Fixpoint redactSecrets (schema : Schema.t) (obj : JsValue) : JsValue :=
  match obj with
  | JsArray items => JsArray (List.map (redactSecrets schema) items)
  | JsObject fields =>
      JsObject
        (List.map
           (λ entry : string * JsValue,
              let (key, value) := entry in
              (key,
               if is_secret schema key && is_string value then
                 JsString "<redacted>"
               else if is_object value then redactSecrets schema value
               else value))
           fields)
  | _ => obj
  end.

(** The bullet U+2022 of the source, written in UTF-8. *)
Definition bullet : string := "•".

(** ['•'.repeat(n)] *)
Fixpoint repeat_bullet (n : nat) : string :=
  match n with
  | O => ""
  | S n => bullet +:+ repeat_bullet n
  end.

(** [value.slice(0, n)] and [value.slice(-n)], for [n] within the length. *)
Definition slice_first (n : nat) (value : string) : string :=
  String.substring 0 n value.
Definition slice_last (n : nat) (value : string) : string :=
  String.substring (String.length value - n) n value.

(** [redactSecret(value)] of [src/utils/redact.ts]. *)
Definition redactSecret (value : string) : string :=
  if negb (truthy value) then value
  else if bool_decide (String.length value ≤ 4) then
    repeat_bullet (String.length value)
  else
    slice_first 2 value +:+ repeat_bullet (String.length value - 4)
    +:+ slice_last 2 value.

(** [redactSecrets(obj, secretKeys)] of [src/utils/redact.ts], exported as
    [redactSecretsUtil].  [Object.entries] of an array lists its items under
    their indices, and the result is always a fresh plain object. *)
Fixpoint redactSecretsUtil (secretKeys : list string) (obj : JsValue)
  : JsValue :=
  let redactProperty (key : string) (value : JsValue) : JsValue :=
    if includes secretKeys key && is_string value then
      match value with
      | JsString s => JsString (redactSecret s)
      | _ => value
      end
    else if is_object value then redactSecretsUtil secretKeys value
    else value in
  match obj with
  | JsObject fields =>
      JsObject
        (List.map (λ entry : string * JsValue,
                     let (key, value) := entry in (key, redactProperty key value))
                  fields)
  | JsArray items =>
      JsObject
        ((fix entries (index : nat) (items : list JsValue) :=
            match items with
            | [] => []
            | value :: rest =>
                (pretty index, redactProperty (pretty index) value)
                :: entries (S index) rest
            end) 0%nat items)
  | _ => JsObject []
  end.

(** ** A small host, for running the model

    The examples below run the model on a host that implements only what
    they use, and agrees with ECMAScript, Node and dotenv there:
    - [Number] on decimal integer numerals (anything else is NaN here);
    - [toLowerCase] on ASCII letters;
    - [URL] on strings that start with [http://] or [https://];
    - [RegExp] on patterns made of an optional [^], literal characters and
      an optional [$]; a pattern with any other metacharacter is refused
      here, which is what the host does with the pattern ["["] used below;
    - a file system with two files, read with a line parser that knows
      comments, [KEY=VALUE] and one layer of quotes.
    No general statement depends on it. *)

Fixpoint digits_value (acc : Z) (l : list ascii) : option Z :=
  match l with
  | [] => Some acc
  | c :: rest =>
      let n := Z.of_nat (Ascii.nat_of_ascii c) in
      if bool_decide (48 ≤ n ≤ 57)%Z
      then digits_value (10 * acc + (n - 48))%Z rest
      else None
  end.

Definition sample_Number (value : string) : number :=
  match String.list_ascii_of_string value with
  | [] => number_of_Z 0
  | c :: rest =>
      if bool_decide (c = "-"%char) then
        match rest with
        | [] => NaN
        | _ => from_option (λ z, number_of_Z (- z)) NaN (digits_value 0 rest)
        end
      else from_option number_of_Z NaN (digits_value 0 (c :: rest))
  end.

Definition sample_number_toString (x : number) : string :=
  match x with
  | NaN => "NaN"
  | Infinity true => "-Infinity"
  | Infinity false => "Infinity"
  | Finite q =>
      if bool_decide (Qden (this q) = 1%positive) then pretty (Qnum (this q))
      else pretty (Qnum (this q)) +:+ "/" +:+ pretty (Zpos (Qden (this q)))
  end.

Definition lower_ascii (c : ascii) : ascii :=
  let n := Ascii.nat_of_ascii c in
  if bool_decide (65 ≤ n ≤ 90)%nat then Ascii.ascii_of_nat (n + 32) else c.

Definition sample_toLowerCase (value : string) : string :=
  String.string_of_list_ascii
    (lower_ascii <$> String.list_ascii_of_string value).

Definition sample_URL_new (value : string) : Throws unit :=
  if String.prefix "http://" value || String.prefix "https://" value
  then Return ()
  else Throw "Invalid URL".

Module SampleRegExp.
Record t : Type := mk {
  from_start : bool;
  literal : list ascii;
  to_end : bool;
}.
End SampleRegExp.

Definition is_metachar (c : ascii) : bool :=
  bool_decide (c ∈ String.list_ascii_of_string "\^$.|?*+()[]{}").

Definition strip_caret (l : list ascii) : bool * list ascii :=
  match l with
  | c :: rest => if bool_decide (c = "^"%char) then (true, rest) else (false, l)
  | [] => (false, [])
  end.

Definition strip_dollar (l : list ascii) : bool * list ascii :=
  match reverse l with
  | c :: rest =>
      if bool_decide (c = "$"%char) then (true, reverse rest) else (false, l)
  | [] => (false, [])
  end.

Definition sample_RegExp_new (pattern_ : string) : Throws SampleRegExp.t :=
  let '(from_start, l) := strip_caret (String.list_ascii_of_string pattern_) in
  let '(to_end, l) := strip_dollar l in
  if existsb is_metachar l
  then Throw ("Invalid regular expression: /" +:+ pattern_ +:+ "/")
  else Return (SampleRegExp.mk from_start l to_end).

Fixpoint is_prefix (p l : list ascii) : bool :=
  match p, l with
  | [], _ => true
  | _ :: _, [] => false
  | a :: p', b :: l' => bool_decide (a = b) && is_prefix p' l'
  end.

Fixpoint occurs (p l : list ascii) : bool :=
  is_prefix p l || match l with [] => false | _ :: l' => occurs p l' end.

Definition sample_RegExp_test (regex : SampleRegExp.t) (value : string) : bool :=
  let l := String.list_ascii_of_string value in
  let p := SampleRegExp.literal regex in
  match SampleRegExp.from_start regex, SampleRegExp.to_end regex with
  | true, true => bool_decide (p = l)
  | true, false => is_prefix p l
  | false, true => is_prefix (reverse p) (reverse l)
  | false, false => occurs p l
  end.

Definition sample_runtime : Runtime := {|
  Number := sample_Number;
  number_toString := sample_number_toString;
  toLowerCase := sample_toLowerCase;
  URL_new := sample_URL_new;
  RegExp := SampleRegExp.t;
  RegExp_new := sample_RegExp_new;
  RegExp_test := sample_RegExp_test;
  RegExp_new_empty := ex_intro _ (SampleRegExp.mk false [] false) eq_refl;
|}.

(** The line feed, as a one-character string. *)
Definition newline : string := String (Ascii.ascii_of_nat 10) "".

Fixpoint split_on (sep : ascii) (l : list ascii) : list (list ascii) :=
  match l with
  | [] => [[]]
  | c :: rest =>
      if bool_decide (c = sep) then [] :: split_on sep rest
      else match split_on sep rest with
           | line :: lines => (c :: line) :: lines
           | [] => [[c]]
           end
  end.

Fixpoint break_at (sep : ascii) (l : list ascii)
  : option (list ascii * list ascii) :=
  match l with
  | [] => None
  | c :: rest =>
      if bool_decide (c = sep) then Some ([], rest)
      else prod_map (cons c) id <$> break_at sep rest
  end.

Definition is_quote (c : ascii) : bool :=
  bool_decide (c = Ascii.ascii_of_nat 34 ∨ c = "'"%char).

Definition dequote (l : list ascii) : list ascii :=
  match l with
  | c :: rest =>
      match reverse rest with
      | c' :: inner =>
          if is_quote c && bool_decide (c = c') then reverse inner else l
      | [] => l
      end
  | [] => l
  end.

Definition sample_parse_line (merged : gmap string string) (line : list ascii)
  : gmap string string :=
  match line with
  | [] => merged
  | c :: _ =>
      if bool_decide (c = "#"%char) then merged
      else match break_at "="%char line with
           | Some (k, v) =>
               <[String.string_of_list_ascii k
                 := String.string_of_list_ascii (dequote v)]> merged
           | None => merged
           end
  end.

Definition sample_parse (fileContent : string) : Throws (gmap string string) :=
  Return (foldl sample_parse_line ∅
            (split_on (Ascii.ascii_of_nat 10)
                      (String.list_ascii_of_string fileContent))).

Definition sample_files : gmap string string :=
  {[ ".env" := "NODE_ENV=development" +:+ newline +:+ "PORT=3000";
     ".env.local" := "PORT=4000" +:+ newline +:+ "DEBUG=true" ]}.

Definition sample_fs : FileSystem := {|
  resolve := λ p, p;
  existsSync := λ p, bool_decide (is_Some (sample_files !! p));
  readFileSync := λ p,
    match sample_files !! p with
    | Some text => Return text
    | None => Throw ("ENOENT: no such file or directory, open '" +:+ p +:+ "'")
    end;
  parse := sample_parse;
|}.

Definition sample_merged (envPaths : list string) : option (gmap string string) :=
  match @parseEnvFiles sample_fs envPaths with
  | Return r => Some (ParsedEnv.merged r)
  | Throw _ => None
  end.

(** ** Loading a schema file ([src/schema/loadSchema.ts]) *)

(** What a schema module exports under a name: an object schema of the
    fluent library, or some other value, of which only the truth value
    matters. *)
Inductive Export : Type :=
  | ExportZodObject (shape : gmap string ZodTypeAny)
  | ExportOther (truth : bool).

Global Instance export_truthy : Truthy Export :=
  λ e, match e with ExportZodObject _ => true | ExportOther b => b end.

Module ModuleNamespace.
Record t : Type := mk {
  default : option Export;
  schema : option Export;
}.
End ModuleNamespace.

(** The dynamic [import(filePath)], and [JSON.parse(content)] followed by
    the read of [properties] (which throws on a root that is [null]). *)
Class ModuleLoader : Type := {
  import_ : string → Throws ModuleNamespace.t;
  JSON_parse : string → Throws (option (gmap string JsonKeyDef.t));
}.

(** [fullPath.split('.').pop()]: what follows the last dot, or the whole
    string when it has no dot. *)
Definition last_segment (s : string) : string :=
  String.string_of_list_ascii
    (List.last (split_on "."%char (String.list_ascii_of_string s)) []).

Section schema_loader.
Context `{Runtime} `{FileSystem} `{ModuleLoader}.

(** [loadZodSchema(filePath)] *)
Definition loadZodSchema (filePath : string) : Throws Schema.t :=
  try_rethrow
    (try! module ← import_ filePath;
     let schema :=
       if truthy (ModuleNamespace.default module)
       then ModuleNamespace.default module
       else ModuleNamespace.schema module in
     match schema with
     | Some (ExportZodObject shape) => Return (loadZodShape filePath shape)
     | _ => Throw "Schema file must export a Zod object schema as default export"
     end)
    (λ msg, "Failed to load Zod schema: " +:+ msg).

(** [loadJsonSchema(filePath)] *)
Definition loadJsonSchema (filePath : string) : Throws Schema.t :=
  try_rethrow
    (try! content ← readFileSync filePath;
     try! properties ← JSON_parse content;
     match properties with
     | None => Throw ("JSON schema must have a " +:+ dquote +:+ "properties"
                      +:+ dquote +:+ " object")
     | Some props =>
         Return (Schema.mk
                   (map_imap (λ keyName keyDef, Some (parseJsonKey keyName keyDef))
                             props)
                   json filePath)
     end)
    (λ msg, "Failed to load JSON schema: " +:+ msg).

(** [loadSchema(schemaPath)] *)
Definition loadSchema (schemaPath : string) : Throws Schema.t :=
  let fullPath := resolve schemaPath in
  if negb (existsSync fullPath) then
    Throw ("Schema file not found: " +:+ fullPath)
  else
    let ext := toLowerCase (last_segment fullPath) in
    if bool_decide (ext = "ts") || bool_decide (ext = "js") then
      loadZodSchema fullPath
    else if bool_decide (ext = "json") then
      loadJsonSchema fullPath
    else
      Throw ("Unsupported schema format: " +:+ ext
             +:+ ". Use .ts/.js for Zod or .json for JSON schema").

End schema_loader.

(** ** Placeholders of the example file ([src/env/generateExample.ts]) *)

Section example_file.
Context `{Runtime}.

(** [String(v)] on a default or an example. *)
Definition String_of (v : Scalar) : string :=
  match v with
  | ScalarString s => s
  | ScalarNumber n => number_toString n
  | ScalarBoolean b => if b then "true" else "false"
  end.

(** [getExampleValue(keyDef)].  The result is [None] for [undefined], which
    the first item of an empty list of literals is. *)
Definition getExampleValue (keyDef : SchemaKey.t) : option string :=
  match SchemaKey.example keyDef with
  | Some example => Some (String_of example)
  | None =>
  match SchemaKey.default keyDef with
  | Some default => Some (String_of default)
  | None =>
      let type := SchemaKey.type keyDef in
      if bool_decide (type = "string") then
        match SchemaKey.enum keyDef with
        | Some allowed => head allowed
        | None => Some "your-value-here"
        end
      else if bool_decide (type = "number") || bool_decide (type = "int") then
        match SchemaKey.min keyDef with
        | Some lo => Some (number_toString lo)
        | None => Some "123"
        end
      else if bool_decide (type = "boolean") then Some "true"
      else if bool_decide (type = "url") then Some "https://api.example.com"
      else if bool_decide (type = "email") then Some "user@example.com"
      else if bool_decide (type = "enum") then
        match SchemaKey.enum keyDef ≫= head with
        | Some first => if truthy first then Some first else Some "option1"
        | None => Some "option1"
        end
      else if bool_decide (type = "port") then Some "3000"
      else Some ""
  end
  end.

End example_file.

(** ** Files ([src/utils/files.ts]) *)

(** [hay.includes(needle)] on strings. *)
Fixpoint string_includes (needle hay : string) : bool :=
  String.prefix needle hay
  || match hay with
     | EmptyString => false
     | String _ rest => string_includes needle rest
     end.

Module GitignoreCheck.
Record t : Type := mk {
  ignored : bool;
  message : option string;
}.
End GitignoreCheck.

Section files.
Context `{FileSystem}.

(** [fileExists(filePath)] *)
Definition fileExists (filePath : string) : bool :=
  existsSync (resolve filePath).

(** [readFile(filePath)] *)
Definition readFile (filePath : string) : Throws string :=
  try_rethrow (readFileSync (resolve filePath))
              (λ msg, "Failed to read file " +:+ filePath +:+ ": " +:+ msg).

(** [checkGitignore()]: the loop returns at the first pattern found. *)
Definition checkGitignore : Throws GitignoreCheck.t :=
  if negb (fileExists ".gitignore") then
    Return (GitignoreCheck.mk false (Some ".gitignore file not found"))
  else
    try! gitignoreContent ← readFile ".gitignore";
    let envPatterns := [".env"; ".env.*"; ".env.local"] in
    if existsb (λ pattern, string_includes pattern gitignoreContent) envPatterns
    then Return (GitignoreCheck.mk true None)
    else Return (GitignoreCheck.mk false
                   (Some ".env files are not ignored in .gitignore")).

End files.

(** ** The report for people ([src/output/formatHuman.ts]) *)

(** What the terminal contributes: whether standard output is a terminal
    ([isatty(1)], read once when the logger is made), the colours, and
    [JSON.stringify(result, null, 2)]. *)
Class Terminal : Type := {
  isatty : bool;
  kleur_green : string → string;
  kleur_red : string → string;
  kleur_blue : string → string;
  kleur_gray : string → string;
  kleur_yellow : string → string;
  kleur_bold : string → string;
  JSON_stringify : ValidationResult.t → string;
}.

Section report.
Context `{Terminal}.

(** [formatSummary(stats)] *)
Definition formatSummary (stats : Stats.t) : string :=
  let parts :=
    (if bool_decide (0 < Stats.checked stats) then
       [pretty (Stats.checked stats) +:+ " key"
        +:+ (if bool_decide (Stats.checked stats = 1) then "" else "s")
        +:+ " checked"]
     else [])
    ++ (if bool_decide (0 < Stats.missing stats) then
          [kleur_red (pretty (Stats.missing stats)) +:+ " missing"]
        else [])
    ++ (if bool_decide (0 < Stats.deprecated stats) then
          [kleur_yellow (pretty (Stats.deprecated stats)) +:+ " deprecated"]
        else [])
    ++ (if bool_decide (0 < Stats.unknown stats) then
          [kleur_yellow (pretty (Stats.unknown stats)) +:+ " unknown"]
        else []) in
  if bool_decide (length parts = 0) then ""
  else kleur_gray ("Summary: " +:+ join ", " parts).

(** The lines of one error, and of one warning. *)
Definition errorLines (error : ValidationIssue.t) : list string :=
  ["  " +:+ kleur_red "✗" +:+ " " +:+ kleur_bold (ValidationIssue.key error)
   +:+ ": " +:+ ValidationIssue.message error].

Definition warningLines (warning : ValidationIssue.t) : list string :=
  let icon :=
    if bool_decide (ValidationIssue.type warning = deprecated) then "⚠"
    else "!" in
  ["  " +:+ kleur_yellow icon +:+ " "
   +:+ kleur_bold (ValidationIssue.key warning)
   +:+ ": " +:+ ValidationIssue.message warning]
  ++ match ValidationIssue.replacedBy warning with
     | Some replacedBy =>
         if truthy replacedBy then
           ["    " +:+ kleur_gray "→ Use" +:+ " " +:+ kleur_blue replacedBy
            +:+ " " +:+ kleur_gray "instead"]
         else []
     | None => []
     end.

(** The array [lines] of [formatHuman], as it stands before the join. *)
Definition humanLines (result : ValidationResult.t) : list string :=
  [ if ValidationResult.ok result
    then kleur_green "✓ Environment validation passed"
    else kleur_red "✗ Environment validation failed";
    "" ]
  ++ (if bool_decide (0 < length (ValidationResult.files result)) then
        [kleur_blue "Files checked:"]
        ++ ((λ file, "  " +:+ kleur_gray "•" +:+ " " +:+ file)
              <$> ValidationResult.files result)
        ++ [""]
      else [])
  ++ (if bool_decide (0 < length (ValidationResult.errors result)) then
        [kleur_red "Errors:"]
        ++ (ValidationResult.errors result ≫= errorLines)
        ++ [""]
      else [])
  ++ (if bool_decide (0 < length (ValidationResult.warnings result)) then
        [kleur_yellow "Warnings:"]
        ++ (ValidationResult.warnings result ≫= warningLines)
        ++ [""]
      else [])
  ++ (let summary := formatSummary (ValidationResult.stats result) in
      if truthy summary then [summary] else []).

(** [formatHuman(result)]; the option [showSecrets] is not read. *)
Definition formatHuman (result : ValidationResult.t) : string :=
  join newline (humanLines result).

(** [formatJson(result)] of [src/output/formatJson.ts]. *)
Definition formatJson (result : ValidationResult.t) : string :=
  JSON_stringify result.

End report.

(** ** The command [check] ([src/cli.ts], [src/utils/logger.ts]) *)

(** What a run writes, in order. *)
Inductive Output : Type :=
  | console_log (message : string)
  | console_warn (message : string)
  | console_error (message : string).

(** The options of [check], as the argument parser hands them over: a flag
    is [true] or absent. *)
Module CheckOptions.
Record t : Type := mk {
  schema : string;
  env : list string;
  json : option bool;
  ci : option bool;
  strict : option bool;
}.
End CheckOptions.

(** [getDefaultEnvPaths()] of [src/env/parseEnv.ts], the default of
    [--env]. *)
Definition getDefaultEnvPaths : list string :=
  [".env"; ".env.local"; ".env.development"; ".env.test"; ".env.production"].

Section command.
Context `{Runtime} `{FileSystem} `{ModuleLoader} `{Terminal}.

(** The methods of [Logger]. *)
Definition logger_info (message : string) : list Output :=
  if isatty then [console_log message] else [].
Definition logger_warn (message : string) : list Output :=
  if isatty then [console_warn message] else [].
Definition logger_error (message : string) : list Output :=
  [console_error message].

(** The action of [check]: what it writes, and the status it hands to
    [process.exit].  An exception ends the [try] block where it is thrown;
    what was written before stays written.

    The schema is a [Schema.t]: its key definitions are typed as
    [src/schema/types.ts] says.  The fluent front end always builds such
    definitions.  [parseJsonKey] copies the fields of a JSON entry
    unchecked, and an entry that breaks the type (an [enum] that is no
    array) has no counterpart here: on it [validateEnvValue] can throw a
    [TypeError], which the [catch] of the action turns into the status 2
    and one line on standard error, like every other exception. *)
Definition check (options : CheckOptions.t) : list Output * Z :=
  match loadSchema (CheckOptions.schema options) with
  | Throw msg => (logger_error ("Error: " +:+ msg), 2%Z)
  | Return schema =>
  match parseEnvFiles (CheckOptions.env options) with
  | Throw msg => (logger_error ("Error: " +:+ msg), 2%Z)
  | Return parsed =>
      let result :=
        validateEnv (ParsedEnv.merged parsed) schema
                    (Options.mk (CheckOptions.strict options)
                                (CheckOptions.ci options)) in
      let written :=
        if truthy (CheckOptions.json options)
        then [console_log (formatJson result)]
        else logger_info (formatHuman result) in
      match checkGitignore with
      | Throw msg => (written ++ logger_error ("Error: " +:+ msg), 2%Z)
      | Return gitignoreCheck =>
          (written
           ++ (if negb (GitignoreCheck.ignored gitignoreCheck) then
                 logger_warn ("⚠️  " +:+ default "undefined"
                                          (GitignoreCheck.message gitignoreCheck))
               else []),
           if ValidationResult.ok result then 0%Z else 1%Z)
      end
  end
  end.

End command.

(** ** Views of a run, for stating its properties *)

(** The issues of a list that carry a given key, in the order of the list. *)
Definition issues_of (keyName : string) (l : list ValidationIssue.t)
  : list ValidationIssue.t :=
  filter (λ e, ValidationIssue.key e = keyName) l.

(** A result is either valid without message, or invalid with a message
    that is not empty. *)
Definition well_formed (r : CheckResult.t) : Prop :=
  r = Valid ∨ ∃ message, r = Invalid message ∧ message ≠ "".

(** Whether the schema declares a key, and declares it deprecated. *)
Definition is_declared (schema : Schema.t) (keyName : string) : bool :=
  bool_decide (is_Some (Schema.keys schema !! keyName)).



(** What the fluent front end guarantees of a key definition. *)
Definition fluent_shape (k : SchemaKey.t) : Prop :=
  SchemaKey.type k
    ∈ ["string"; "number"; "boolean"; "url"; "email"; "enum"; "int"; "port"]
  ∧ (SchemaKey.type k = "port" →
     SchemaKey.min k = Some (number_of_Z 1)
     ∧ SchemaKey.max k = Some (number_of_Z 65535))
  ∧ (is_Some (SchemaKey.enum k) ↔ SchemaKey.type k = "enum")
  ∧ (is_Some (SchemaKey.pattern k) →
     SchemaKey.type k ∈ ["string"; "url"; "email"])
  ∧ (is_Some (SchemaKey.min k) ∨ is_Some (SchemaKey.max k) →
     SchemaKey.type k ∈ ["number"; "int"; "port"])
  ∧ SchemaKey.example k = None
  ∧ SchemaKey.deprecated k = None
  ∧ SchemaKey.replacedBy k = None.

(** What [redactSecrets] of [formatJson] stores under a property: the body
    of its loop. *)
Definition redactProperty (schema : Schema.t) (key : string) (value : JsValue)
  : JsValue :=
  if is_secret schema key && is_string value then JsString "<redacted>"
  else if is_object value then redactSecrets schema value
  else value.

(** The body of the loop of [redactSecrets] of [utils/redact], and the
    properties it stores for the items of an array, numbered from [index]. *)
Definition redactPropertyUtil (secretKeys : list string) (key : string)
    (value : JsValue) : JsValue :=
  if includes secretKeys key && is_string value then
    match value with
    | JsString s => JsString (redactSecret s)
    | _ => value
    end
  else if is_object value then redactSecretsUtil secretKeys value
  else value.

Fixpoint array_entries (secretKeys : list string) (index : nat)
    (items : list JsValue) : list (string * JsValue) :=
  match items with
  | [] => []
  | value :: rest =>
      (pretty index, redactPropertyUtil secretKeys (pretty index) value)
      :: array_entries secretKeys (S index) rest
  end.

(** [field_of v key x]: the value [v] has, at some nesting level (inside
    objects and arrays), an object with a property [key] of value [x]. *)
Inductive field_of : JsValue → string → JsValue → Prop :=
  | field_here fields key x :
      (key, x) ∈ fields → field_of (JsObject fields) key x
  | field_in_object fields name child key x :
      (name, child) ∈ fields → field_of child key x →
      field_of (JsObject fields) key x
  | field_in_array items child key x :
      child ∈ items → field_of child key x →
      field_of (JsArray items) key x.

(** ** Scenarios

    Schemas and mappings on which the model is run below. *)

(** The key definition of the unit tests of [validateEnvValue]. *)
Definition test_key (type : string) (enum : option (list string)) : SchemaKey.t :=
  SchemaKey.mk "TEST" type None None None enum None true false None None None None.

(** One deprecated key, present and valid. *)
Definition deprecated_schema : Schema.t :=
  Schema.mk
    {[ "OLD_API_URL" :=
         SchemaKey.mk "OLD_API_URL" "string" None None None None None
                      false false (Some true) (Some "API_URL") None None ]}
    json "env.schema.json".

Definition deprecated_env : gmap string string :=
  {[ "OLD_API_URL" := "https://api.example.com" ]}.

(** A mapping with one key, and a schema that declares no key. *)
Definition debug_env : gmap string string := {[ "DEBUG" := "true" ]}.

Definition empty_schema : Schema.t := Schema.mk ∅ json "env.schema.json".

(** An optional key with a pattern, and a required one, both given the
    empty value (a line [NAME=] of an env file). *)
Definition name_key (required : bool) (pattern_ : option string) : SchemaKey.t :=
  SchemaKey.mk "NAME" "string" None None None None pattern_
               required false None None None None.

Definition name_schema (required : bool) (pattern_ : option string) : Schema.t :=
  Schema.mk {[ "NAME" := name_key required pattern_ ]} json "env.schema.json".

Definition empty_name_env : gmap string string := {[ "NAME" := "" ]}.

(** A variable, and a required key, named like members of
    [Object.prototype]. *)
Definition constructor_env : gmap string string := {[ "constructor" := "x" ]}.

Definition toString_schema : Schema.t :=
  Schema.mk
    {[ "toString" :=
         SchemaKey.mk "toString" "string" None None None None None
                      true false None None None None ]}
    json "env.schema.json".

(** The two files of the sample file system, as [parseEnvFiles] reads
    them. *)
Definition base_file : EnvFile.t :=
  EnvFile.mk ".env" true {[ "NODE_ENV" := "development"; "PORT" := "3000" ]}.

Definition local_file : EnvFile.t :=
  EnvFile.mk ".env.local" true {[ "PORT" := "4000"; "DEBUG" := "true" ]}.

(** The fields of the schema of the test "should handle optional keys" and
    of the basic example, as the fluent library builds them: [describe]
    annotates the outermost node. *)
Definition plain_node : ZodAnnotations := annotations None false.
Definition described (text : string) : ZodAnnotations :=
  annotations (Some text) false.

Definition zod_NODE_ENV : ZodTypeAny :=
  ZodEnum (described "Runtime mode") ["development"; "test"; "production"].

Definition zod_DEBUG : ZodTypeAny :=
  ZodOptional (described "Debug mode") (ZodBoolean plain_node).

Definition zod_PORT : ZodTypeAny :=
  ZodDefault (described "HTTP port")
    (ZodNumber plain_node
       [check_int; check_min (number_of_Z 1); check_max (number_of_Z 65535)])
    (λ _, ScalarNumber (number_of_Z 3000)).

Definition optional_keys_schema : Schema.t :=
  loadZodShape "env.schema.ts"
    {[ "NODE_ENV" := zod_NODE_ENV; "DEBUG" := zod_DEBUG ]}.

Definition development_env : gmap string string :=
  {[ "NODE_ENV" := "development" ]}.

(** The entry [FEATURE_X] of the declarative schema that [init --json]
    writes and the README shows. *)
Definition json_FEATURE_X : JsonKeyDef.t :=
  JsonKeyDef.mk (Some "enum") (Some "Toggle feature X") (Some false) None
                None None (Some ["on"; "off"]) None None None None None None.

(** A schema with one secret key, and a view of an environment. *)
Definition secret_schema : Schema.t :=
  Schema.mk
    {[ "SECRET_TOKEN" :=
         SchemaKey.mk "SECRET_TOKEN" "string" (Some "Service token") None None
                      None None true true None None None None ]}
    json "env.schema.json".

Definition env_view : JsValue :=
  JsObject [("NODE_ENV", JsString "development");
            ("SECRET_TOKEN", JsString "abcdefgh")].

(** A report that carries the environment two levels down, in a list. *)
Definition nested_view : JsValue :=
  JsObject [("ok", JsBoolean true);
            ("environments", JsArray [env_view; JsNull])].

(** A secret key of type [number], given a value that is no number. *)
Definition secret_number_key : SchemaKey.t :=
  SchemaKey.mk "SECRET_TOKEN" "number" None None None None None
               true true None None None None.

Definition secret_number_schema : Schema.t :=
  Schema.mk {[ "SECRET_TOKEN" := secret_number_key ]} json "env.schema.json".

Definition secret_number_env : gmap string string :=
  {[ "SECRET_TOKEN" := "hunter2" ]}.

(** A project directory: a fluent schema, a declarative schema, a file that
    is neither, an env file and a [.gitignore]; and what the host makes of
    the two schemas. *)
Definition project_json_text : string :=
  "{" +:+ quoted "properties" +:+ ": {" +:+ quoted "FEATURE_X" +:+ ": {"
  +:+ quoted "type" +:+ ": " +:+ quoted "enum" +:+ ", "
  +:+ quoted "description" +:+ ": " +:+ quoted "Toggle feature X" +:+ ", "
  +:+ quoted "required" +:+ ": false, "
  +:+ quoted "enum" +:+ ": [" +:+ quoted "on" +:+ ", " +:+ quoted "off"
  +:+ "]}}}".

Definition project_files : gmap string string :=
  {[ "/app/env.schema.ts" := "export default z.object({ ... })";
     "/app/env.schema.JSON" := project_json_text;
     "/app/notes.txt" := "remember to rotate the token";
     "/app/.env" := "NODE_ENV=staging";
     "/app/.gitignore" := "node_modules" +:+ newline +:+ ".env.local" ]}.

Definition project_fs : FileSystem := {|
  resolve := λ p, "/app/" +:+ p;
  existsSync := λ p, bool_decide (is_Some (project_files !! p));
  readFileSync := λ p,
    match project_files !! p with
    | Some text => Return text
    | None => Throw ("ENOENT: no such file or directory, open '" +:+ p +:+ "'")
    end;
  parse := sample_parse;
|}.

Definition project_loader : ModuleLoader := {|
  import_ := λ p,
    if bool_decide (p = "/app/env.schema.ts")
    then Return (ModuleNamespace.mk
                   (Some (ExportZodObject
                            {[ "NODE_ENV" := zod_NODE_ENV; "DEBUG" := zod_DEBUG ]}))
                   None)
    else Throw ("Cannot find module '" +:+ p +:+ "'");
  JSON_parse := λ text,
    if bool_decide (text = project_json_text)
    then Return (Some {[ "FEATURE_X" := json_FEATURE_X ]})
    else Throw "Unexpected end of JSON input";
|}.

(** Standard output sent to a pipe, or shown on a terminal: colours are
    off either way.  The JSON text is that of the serialiser of the host;
    the runs below do not ask for it, and it is left empty here. *)
Definition plain_terminal (tty : bool) : Terminal := {|
  isatty := tty;
  kleur_green := λ text, text;
  kleur_red := λ text, text;
  kleur_blue := λ text, text;
  kleur_gray := λ text, text;
  kleur_yellow := λ text, text;
  kleur_bold := λ text, text;
  JSON_stringify := λ _, "";
|}.

(** [fixup-env check --env .env --ci], with the default schema path. *)
Definition check_ci : CheckOptions.t :=
  CheckOptions.mk "env.schema.ts" [".env"] None (Some true) None.

(** * Properties *)

(** ** The model on the tests of the repository

    [test/parseEnv.spec.ts], on the sample host. *)

Example should_merge_multiple_files :
  sample_merged [".env"; ".env.local"]
  = Some {[ "NODE_ENV" := "development"; "PORT" := "4000"; "DEBUG" := "true" ]}.
Proof. vm_compute. reflexivity. Qed.

Example should_handle_missing_files :
  sample_merged [".env.production"] = Some ∅.
Proof. vm_compute. reflexivity. Qed.

Example should_handle_quoted_values :
  sample_parse ("MESSAGE=" +:+ quoted "Hello World" +:+ newline +:+ "PATH=/usr/bin")
  = Return {[ "MESSAGE" := "Hello World"; "PATH" := "/usr/bin" ]}.
Proof. vm_compute. reflexivity. Qed.

Example should_validate_boolean_values :
  forallb (λ value, CheckResult.valid
                      (@validateEnvValue sample_runtime value
                         (test_key "boolean" None)))
          booleanWords = true.
Proof. vm_compute. reflexivity. Qed.

Example should_reject_invalid_port_numbers :
  @validateEnvValue sample_runtime "99999" (test_key "port" None)
  = Invalid ("Expected port number (1-65535), got " +:+ quoted "99999").
Proof. vm_compute. reflexivity. Qed.

Example should_reject_invalid_enum_values :
  @validateEnvValue sample_runtime "staging"
    (test_key "enum" (Some ["development"; "test"; "production"]))
  = Invalid ("Expected one of [development, test, production], got "
             +:+ quoted "staging").
Proof. vm_compute. reflexivity. Qed.

Example should_validate_email_addresses :
  @validateEnvValue sample_runtime "user@example.com" (test_key "email" None)
  = Valid
  ∧ @validateEnvValue sample_runtime "not-an-email" (test_key "email" None)
    = Invalid ("Expected valid email, got " +:+ quoted "not-an-email").
Proof. vm_compute. done. Qed.

(** ** Counting issues *)

Lemma count_issue_app keyName kind l1 l2 :
  count_issue keyName kind (l1 ++ l2)
  = (count_issue keyName kind l1 + count_issue keyName kind l2)%nat.
Proof. unfold count_issue. by rewrite filter_app, length_app. Qed.

Lemma count_type_app kind l1 l2 :
  count_type kind (l1 ++ l2) = (count_type kind l1 + count_type kind l2)%nat.
Proof. unfold count_type. by rewrite filter_app, length_app. Qed.

Lemma count_issue_nil keyName kind : count_issue keyName kind [] = 0%nat.
Proof. done. Qed.

Lemma count_issue_same keyName kind message replacedBy :
  count_issue keyName kind [ValidationIssue.mk keyName kind message replacedBy]
  = 1%nat.
Proof. unfold count_issue. by rewrite filter_cons_True. Qed.

Lemma count_issue_other_kind keyName kind issue :
  ValidationIssue.type issue ≠ kind → count_issue keyName kind [issue] = 0%nat.
Proof. intros ?. unfold count_issue. rewrite filter_cons_False; [done|]. by intros [_ ?]. Qed.

(** Issues that all carry another key, or another kind, do not count. *)
Lemma count_issue_none keyName kind l :
  Forall (λ e, ValidationIssue.key e ≠ keyName ∨ ValidationIssue.type e ≠ kind) l →
  count_issue keyName kind l = 0%nat.
Proof.
  unfold count_issue. induction 1 as [|e l He _ IH]; [done|].
  rewrite filter_cons_False; [done|]. intros [??]. by destruct He.
Qed.

(** Over a list of entries with distinct keys, when the issues of an
    entry carry the key of that entry, only the entry of [keyName] counts. *)
Section count_entries.
Context {V : Type} (f : string * V → list ValidationIssue.t).
Context (keyName : string) (kind : IssueType).
Hypothesis f_key : ∀ e, Forall (λ i, ValidationIssue.key i = e.1) (f e).

Lemma count_issue_other_entry e :
  e.1 ≠ keyName → count_issue keyName kind (f e) = 0%nat.
Proof using f_key.
  intros Hne. apply count_issue_none.
  eapply Forall_impl; [apply f_key|]. simpl. intros i ->. by left.
Qed.

Lemma count_issue_absent (l : list (string * V)) :
  keyName ∉ l.*1 → count_issue keyName kind (l ≫= f) = 0%nat.
Proof using f_key.
  induction l as [|[k v] l IH]; [done|].
  rewrite fmap_cons, not_elem_of_cons. intros [Hne Hnot].
  rewrite bind_cons, count_issue_app, IH by done.
  by rewrite count_issue_other_entry.
Qed.

Lemma count_issue_present (l : list (string * V)) v :
  NoDup l.*1 → (keyName, v) ∈ l →
  count_issue keyName kind (l ≫= f) = count_issue keyName kind (f (keyName, v)).
Proof using f_key.
  induction l as [|[k v'] l IH].
  - intros _ Hin. by apply elem_of_nil in Hin.
  - rewrite fmap_cons, NoDup_cons, elem_of_cons. intros [Hk Hnd] Hin.
    rewrite bind_cons, count_issue_app.
    destruct Hin as [[= <- <-]|Hin].
    + rewrite count_issue_absent by done. lia.
    + assert (k ≠ keyName) as Hne.
      { intros ->. apply Hk. apply list_elem_of_fmap. by exists (keyName, v). }
      rewrite count_issue_other_entry by done. by rewrite IH.
Qed.

Lemma count_issue_entries (m : gmap string V) :
  count_issue keyName kind (map_to_list m ≫= f)
  = match m !! keyName with
    | Some v => count_issue keyName kind (f (keyName, v))
    | None => 0%nat
    end.
Proof using f_key.
  destruct (m !! keyName) as [v|] eqn:E.
  - apply count_issue_present; [apply NoDup_fst_map_to_list|].
    by apply elem_of_map_to_list.
  - apply count_issue_absent. intros Hin.
    apply list_elem_of_fmap in Hin as ([k v] & -> & Hin).
    apply elem_of_map_to_list in Hin. simpl in *. congruence.
Qed.

End count_entries.

(** ** The orchestrator, loop by loop *)

Section orchestrator_facts.
Context `{Runtime}.
Implicit Types (env : gmap string string) (schema : Schema.t).
Implicit Types (options : Options.t) (errors warnings : list ValidationIssue.t).

Lemma checkMissing_app env errors entry :
  checkMissing env errors entry = errors ++ missingOf env entry.
Proof.
  unfold missingOf, checkMissing. destruct entry as [keyName keyDef].
  case_match; [done|]. by rewrite app_nil_r.
Qed.

Lemma checkEntry_app options schema errors warnings entry :
  checkEntry options schema (errors, warnings) entry
  = (errors ++ entryErrors options schema entry,
     warnings ++ entryWarnings options schema entry).
Proof.
  unfold entryErrors, entryWarnings, checkEntry.
  destruct entry as [keyName value].
  repeat case_match; simpl; by rewrite ?app_nil_r, <-?app_assoc.
Qed.

Lemma foldl_checkMissing env errors l :
  foldl (checkMissing env) errors l = errors ++ (l ≫= missingOf env).
Proof.
  revert errors. induction l as [|entry l IH]; intros errors; cbn [foldl].
  - by rewrite app_nil_r.
  - by rewrite IH, checkMissing_app, bind_cons, <-app_assoc.
Qed.

Lemma foldl_checkEntry options schema errors warnings l :
  foldl (checkEntry options schema) (errors, warnings) l
  = (errors ++ (l ≫= entryErrors options schema),
     warnings ++ (l ≫= entryWarnings options schema)).
Proof.
  revert errors warnings.
  induction l as [|entry l IH]; intros errors warnings; cbn [foldl].
  - by rewrite !app_nil_r.
  - by rewrite checkEntry_app, IH, !bind_cons, <-!app_assoc.
Qed.

Lemma validateEnv_errors env schema options :
  ValidationResult.errors (validateEnv env schema options)
  = (map_to_list (Schema.keys schema) ≫= missingOf env)
    ++ (map_to_list env ≫= entryErrors options schema).
Proof. unfold validateEnv. by rewrite foldl_checkMissing, foldl_checkEntry. Qed.

Lemma validateEnv_warnings env schema options :
  ValidationResult.warnings (validateEnv env schema options)
  = map_to_list env ≫= entryWarnings options schema.
Proof. unfold validateEnv. by rewrite foldl_checkMissing, foldl_checkEntry. Qed.

Lemma validateEnv_ok env schema options :
  ValidationResult.ok (validateEnv env schema options)
  = negb (bool_decide
            (0 < length (ValidationResult.errors (validateEnv env schema options)))
          || truthy (Options.failOnWarn options)
             && bool_decide
                  (0 < length (ValidationResult.warnings
                                 (validateEnv env schema options)))).
Proof. unfold validateEnv. by rewrite foldl_checkMissing, foldl_checkEntry. Qed.

Lemma validateEnv_stats env schema options :
  ValidationResult.stats (validateEnv env schema options)
  = let r := validateEnv env schema options in
    Stats.mk (size env)
             (count_type missing (ValidationResult.errors r))
             (count_type deprecated (ValidationResult.warnings r))
             (count_type unknown (ValidationResult.warnings r)).
Proof.
  unfold validateEnv. rewrite foldl_checkMissing, foldl_checkEntry. simpl.
  by rewrite length_fmap, length_map_to_list.
Qed.

(** Every issue of an entry carries the key of that entry. *)
Lemma missingOf_key env entry :
  Forall (λ i, ValidationIssue.key i = entry.1) (missingOf env entry).
Proof.
  unfold missingOf, checkMissing. destruct entry as [keyName keyDef].
  case_match; repeat constructor.
Qed.

Lemma entryErrors_key options schema entry :
  Forall (λ i, ValidationIssue.key i = entry.1) (entryErrors options schema entry).
Proof.
  unfold entryErrors, checkEntry. destruct entry as [keyName value].
  repeat case_match; simpl; repeat constructor.
Qed.

Lemma entryWarnings_key options schema entry :
  Forall (λ i, ValidationIssue.key i = entry.1) (entryWarnings options schema entry).
Proof.
  unfold entryWarnings, checkEntry. destruct entry as [keyName value].
  repeat case_match; simpl; repeat constructor.
Qed.

(** The first loop only reports [missing], the second never does. *)
Lemma missingOf_type env entry :
  Forall (λ i, ValidationIssue.type i = missing) (missingOf env entry).
Proof.
  unfold missingOf, checkMissing. destruct entry as [keyName keyDef].
  case_match; repeat constructor.
Qed.

Lemma entryErrors_type options schema entry :
  Forall (λ i, ValidationIssue.type i ≠ missing
               ∧ ValidationIssue.type i ≠ deprecated)
         (entryErrors options schema entry).
Proof.
  unfold entryErrors, checkEntry. destruct entry as [keyName value].
  repeat case_match; simpl; repeat constructor; done.
Qed.

Lemma entryWarnings_type options schema entry :
  Forall (λ i, ValidationIssue.type i = deprecated
               ∨ ValidationIssue.type i = unknown)
         (entryWarnings options schema entry).
Proof.
  unfold entryWarnings, checkEntry. destruct entry as [keyName value].
  repeat case_match; simpl;
    repeat first [apply Forall_nil_2 | apply Forall_cons_2; [simpl; auto|]].
Qed.

Lemma entryErrors_declared options schema keyName value keyDef :
  Schema.keys schema !! keyName = Some keyDef →
  entryErrors options schema (keyName, value)
  = typeIssues keyName value keyDef ++ patternIssues keyName value keyDef.
Proof.
  intros Hdef.
  unfold entryErrors, checkEntry, get_property, typeIssues, patternIssues.
  rewrite Hdef. repeat case_match; done.
Qed.

Lemma entryWarnings_declared options schema keyName value keyDef :
  Schema.keys schema !! keyName = Some keyDef →
  entryWarnings options schema (keyName, value)
  = deprecationIssues keyName keyDef.
Proof.
  intros Hdef. unfold entryWarnings, checkEntry, get_property, deprecationIssues.
  rewrite Hdef. repeat case_match; done.
Qed.

Lemma entryErrors_undeclared options schema keyName value :
  Schema.keys schema !! keyName = None →
  inherited keyName = false →
  entryErrors options schema (keyName, value)
  = if truthy (Options.strict options) then [unknownIssue keyName] else [].
Proof.
  intros Hdef Hplain. unfold entryErrors, checkEntry, get_property.
  rewrite Hdef, Hplain. by case_match.
Qed.

Lemma entryWarnings_undeclared options schema keyName value :
  Schema.keys schema !! keyName = None →
  inherited keyName = false →
  entryWarnings options schema (keyName, value)
  = if truthy (Options.strict options) then [] else [unknownIssue keyName].
Proof.
  intros Hdef Hplain. unfold entryWarnings, checkEntry, get_property.
  rewrite Hdef, Hplain. by case_match.
Qed.

(** A key that the schema does not declare and that names an inherited
    member is taken for declared, and nothing is reported for it. *)
Lemma entryErrors_inherited options schema keyName value :
  Schema.keys schema !! keyName = None →
  inherited keyName = true →
  entryErrors options schema (keyName, value) = [].
Proof.
  intros Hdef Hproto. unfold entryErrors, checkEntry, get_property.
  by rewrite Hdef, Hproto.
Qed.

Lemma entryWarnings_inherited options schema keyName value :
  Schema.keys schema !! keyName = None →
  inherited keyName = true →
  entryWarnings options schema (keyName, value) = [].
Proof.
  intros Hdef Hproto. unfold entryWarnings, checkEntry, get_property.
  by rewrite Hdef, Hproto.
Qed.

(** Counting in the result of a run. *)
Lemma count_issue_missing_errors env schema options keyName kind :
  kind ≠ missing →
  count_issue keyName kind (ValidationResult.errors (validateEnv env schema options))
  = match env !! keyName with
    | Some value => count_issue keyName kind (entryErrors options schema (keyName, value))
    | None => 0%nat
    end.
Proof.
  intros Hkind. rewrite validateEnv_errors, count_issue_app.
  rewrite (count_issue_none _ _ (_ ≫= missingOf env)).
  - by rewrite count_issue_entries by apply entryErrors_key.
  - apply Forall_forall. intros i Hi.
    apply list_elem_of_bind in Hi as (entry & Hi & _).
    pose proof (missingOf_type env entry) as Hty.
    rewrite Forall_forall in Hty. right. by rewrite (Hty i Hi).
Qed.

Lemma count_issue_warnings env schema options keyName kind :
  count_issue keyName kind (ValidationResult.warnings (validateEnv env schema options))
  = match env !! keyName with
    | Some value => count_issue keyName kind (entryWarnings options schema (keyName, value))
    | None => 0%nat
    end.
Proof.
  rewrite validateEnv_warnings.
  by rewrite count_issue_entries by apply entryWarnings_key.
Qed.

(** An issue of an entry of [env] is an issue of the run. *)
Lemma entryErrors_reported env schema options keyName value issue :
  env !! keyName = Some value →
  issue ∈ entryErrors options schema (keyName, value) →
  issue ∈ ValidationResult.errors (validateEnv env schema options).
Proof.
  intros Henv Hin. rewrite validateEnv_errors, elem_of_app. right.
  apply list_elem_of_bind. exists (keyName, value).
  by rewrite elem_of_map_to_list.
Qed.


End orchestrator_facts.

(** ** The overall verdict *)

Lemma should_not_fail_iff {A} (errors warnings : list A) (failOnWarn : bool) :
  negb (bool_decide (0 < length errors)
        || failOnWarn && bool_decide (0 < length warnings)) = true
  ↔ errors = [] ∧ (warnings = [] ∨ failOnWarn = false).
Proof.
  destruct errors as [|e errors], warnings as [|w warnings], failOnWarn;
    simpl; split; try done; try (intros [? [?|?]]; done); auto.
Qed.

(** C3.  For every merged mapping, schema and options, [ok] is true exactly
    when the list of errors is empty and either the list of warnings is
    empty or [failOnWarn] is not set.  In particular a run with no error
    and a single deprecation warning has [ok = true] without [failOnWarn]
    and [ok = false] with it. *)
Theorem validateEnv_ok_iff `{Runtime} (env : gmap string string)
    (schema : Schema.t) (options : Options.t) :
  let r := validateEnv env schema options in
  (ValidationResult.ok r = true ↔
     ValidationResult.errors r = [] ∧
     (ValidationResult.warnings r = []
      ∨ truthy (Options.failOnWarn options) = false))
  ∧ (∀ w, ValidationResult.errors r = [] →
          ValidationResult.warnings r = [w] →
          ValidationIssue.type w = deprecated →
          ValidationResult.ok r = negb (truthy (Options.failOnWarn options))).
Proof.
  intros r. subst r. split.
  - rewrite validateEnv_ok. apply should_not_fail_iff.
  - intros w Herrors Hwarnings _.
    rewrite validateEnv_ok, Herrors, Hwarnings. simpl.
    by destruct (truthy (Options.failOnWarn options)).
Qed.

Lemma validateEnv_ok_iff_witness :
  ValidationResult.ok
    (@validateEnv sample_runtime deprecated_env deprecated_schema
                  (Options.mk None (Some false))) = true
  ∧ ValidationResult.ok
      (@validateEnv sample_runtime deprecated_env deprecated_schema
                    (Options.mk None (Some true))) = false.
Proof.
  split.
  - apply (proj2 (@validateEnv_ok_iff sample_runtime deprecated_env
                    deprecated_schema (Options.mk None (Some false)))
             (ValidationIssue.mk "OLD_API_URL" deprecated
                "Deprecated. Use API_URL instead" (Some "API_URL")));
      vm_compute; reflexivity.
  - apply (proj2 (@validateEnv_ok_iff sample_runtime deprecated_env
                    deprecated_schema (Options.mk None (Some true)))
             (ValidationIssue.mk "OLD_API_URL" deprecated
                "Deprecated. Use API_URL instead" (Some "API_URL")));
      vm_compute; reflexivity.
Defined.

(** ** Undeclared keys *)




(** Names that plain objects inherit: the lookup [schema.keys[keyName]]
    finds the inherited member for an undeclared variable [constructor],
    which is then not reported, not even under [strict]; and the test
    [keyName in env] finds it for a required key [toString] that the
    mapping lacks, which is then not reported missing. *)
Example inherited_name_is_not_unknown :
  let r := @validateEnv sample_runtime constructor_env empty_schema
                        (Options.mk (Some true) None) in
  ValidationResult.errors r = [] ∧ ValidationResult.warnings r = []
  ∧ ValidationResult.ok r = true.
Proof. vm_compute. done. Qed.

Example inherited_name_is_not_missing :
  let r := @validateEnv sample_runtime ∅ toString_schema (Options.mk None None) in
  ValidationResult.errors r = [] ∧ ValidationResult.ok r = true
  ∧ Stats.missing (ValidationResult.stats r) = 0%nat.
Proof. vm_compute. done. Qed.

(** ** Statistics *)

Lemma count_type_none kind l :
  Forall (λ e, ValidationIssue.type e ≠ kind) l → count_type kind l = 0%nat.
Proof.
  unfold count_type. induction 1 as [|e l He _ IH]; [done|].
  by rewrite filter_cons_False.
Qed.

Section stats_facts.
Context `{Runtime}.

(** What the four counters are, in terms of the issues of the run: the
    first three count every issue of their kind, the last one counts the
    [unknown] issues among the warnings. *)
Lemma validateEnv_stats_counts (env : gmap string string) (schema : Schema.t)
    (options : Options.t) :
  let r := validateEnv env schema options in
  let issues := ValidationResult.errors r ++ ValidationResult.warnings r in
  Stats.checked (ValidationResult.stats r) = size env
  ∧ Stats.missing (ValidationResult.stats r) = count_type missing issues
  ∧ Stats.deprecated (ValidationResult.stats r) = count_type deprecated issues
  ∧ Stats.unknown (ValidationResult.stats r)
    = count_type unknown (ValidationResult.warnings r).
Proof.
  intros r issues. subst r issues. rewrite validateEnv_stats. simpl.
  rewrite !count_type_app.
  rewrite (count_type_none missing (ValidationResult.warnings _)).
  - rewrite (count_type_none deprecated (ValidationResult.errors _)); [auto with lia|].
    rewrite validateEnv_errors. apply Forall_app. split.
    + apply Forall_bind, Forall_forall. intros entry _.
      eapply Forall_impl; [apply missingOf_type|]. simpl. by intros i ->.
    + apply Forall_bind, Forall_forall. intros entry _.
      eapply Forall_impl; [apply entryErrors_type|]. simpl. by intros i [_ ?].
  - rewrite validateEnv_warnings.
    apply Forall_bind, Forall_forall. intros entry _.
    eapply Forall_impl; [apply entryWarnings_type|]. simpl.
    by intros i [->| ->].
Qed.

(** Under [strict] no [unknown] issue is a warning, so the counter is 0
    whatever the number of undeclared keys. *)
Lemma validateEnv_stats_unknown_strict (env : gmap string string)
    (schema : Schema.t) (options : Options.t) :
  truthy (Options.strict options) = true →
  Stats.unknown (ValidationResult.stats (validateEnv env schema options)) = 0%nat.
Proof.
  intros Hstrict. rewrite validateEnv_stats. simpl. apply count_type_none.
  rewrite validateEnv_warnings.
  apply Forall_bind, Forall_forall. intros [keyName value] _. unfold compose.
  destruct (Schema.keys schema !! keyName) as [keyDef|] eqn:Hdef.
  - rewrite (entryWarnings_declared _ _ _ _ keyDef) by done.
    unfold deprecationIssues. case_match; [|done].
    by apply Forall_singleton.
  - destruct (inherited keyName) eqn:Hproto.
    + by rewrite entryWarnings_inherited.
    + by rewrite entryWarnings_undeclared, Hstrict.
Qed.

End stats_facts.

(** C5 on the code: in strict mode the run below reports one [unknown]
    issue, as an error, and [stats.unknown] is 0. *)
Theorem stats_unknown_ignores_strict_errors :
  let r := @validateEnv sample_runtime debug_env empty_schema
                        (Options.mk (Some true) None) in
  ValidationResult.errors r = [unknownIssue "DEBUG"]
  ∧ ValidationResult.warnings r = []
  ∧ count_type unknown (ValidationResult.errors r ++ ValidationResult.warnings r)
    = 1%nat
  ∧ Stats.unknown (ValidationResult.stats r) = 0%nat
  ∧ Stats.checked (ValidationResult.stats r) = 1%nat.
Proof. vm_compute. done. Qed.

(** ** Empty values *)

Lemma count_issue_ne_length keyName kind l :
  count_issue keyName kind l = 0%nat →
  count_type kind l
  = length (filter (λ e, ValidationIssue.type e = kind
                         ∧ ValidationIssue.key e ≠ keyName) l).
Proof.
  unfold count_issue, count_type. induction l as [|e l IH]; [done|].
  rewrite !filter_cons.
  destruct (decide (ValidationIssue.key e = keyName ∧ ValidationIssue.type e = kind))
    as [Hd|Hd]; [done|].
  intros Hl. specialize (IH Hl).
  destruct (decide (ValidationIssue.type e = kind)) as [Hty|Hty].
  - rewrite decide_True by (split; [done|]; intros ?; by apply Hd).
    simpl. by rewrite IH.
  - rewrite decide_False by (by intros [? _]). done.
Qed.

Section empty_value_facts.
Context `{Runtime}.
Implicit Types (env : gmap string string) (schema : Schema.t).
Implicit Types (options : Options.t).

(** The [missing] errors for a key come from the first loop alone. *)
Lemma count_issue_missing env schema options keyName :
  count_issue keyName missing
    (ValidationResult.errors (validateEnv env schema options))
  = match Schema.keys schema !! keyName with
    | Some keyDef => count_issue keyName missing (missingOf env (keyName, keyDef))
    | None => 0%nat
    end.
Proof.
  rewrite validateEnv_errors, count_issue_app.
  rewrite (count_issue_none _ _ (_ ≫= entryErrors options schema)).
  - rewrite count_issue_entries by apply missingOf_key. lia.
  - apply Forall_bind, Forall_forall. intros entry _. unfold compose.
    eapply Forall_impl; [apply entryErrors_type|]. simpl.
    intros i [? _]. by right.
Qed.

Lemma missingOf_present env keyName keyDef :
  is_Some (env !! keyName) → missingOf env (keyName, keyDef) = [].
Proof.
  intros Hin. unfold missingOf, checkMissing, has_property.
  rewrite (bool_decide_eq_true_2 _ Hin). by rewrite andb_false_r.
Qed.

Lemma missingOf_inherited env keyName keyDef :
  inherited keyName = true → missingOf env (keyName, keyDef) = [].
Proof.
  intros Hproto. unfold missingOf, checkMissing, has_property.
  by rewrite Hproto, orb_true_r, andb_false_r.
Qed.

Lemma missingOf_absent env keyName keyDef :
  env !! keyName = None → inherited keyName = false →
  missingOf env (keyName, keyDef)
  = if SchemaKey.required keyDef
    then [ValidationIssue.mk keyName missing "Required key missing" None]
    else [].
Proof.
  intros Henv Hplain. unfold missingOf, checkMissing, has_property.
  rewrite Henv, Hplain, bool_decide_eq_false_2 by (by intros [??]).
  by destruct (SchemaKey.required keyDef).
Qed.

Lemma validateEnvValue_empty keyDef :
  validateEnvValue "" keyDef
  = if SchemaKey.required keyDef then Invalid "Required key missing" else Valid.
Proof. unfold validateEnvValue. simpl. by destruct (SchemaKey.required keyDef). Qed.

End empty_value_facts.

(** C10.  A required key that the mapping holds with the empty string gets
    exactly one error of kind [type], with the message
    [Required key missing], and no error of kind [missing]; [stats.missing]
    is the number of [missing] errors of the other keys. *)
Theorem validateEnv_required_empty `{Runtime} (env : gmap string string)
    (schema : Schema.t) (options : Options.t) (keyName : string)
    (keyDef : SchemaKey.t) :
  env !! keyName = Some "" →
  Schema.keys schema !! keyName = Some keyDef →
  SchemaKey.required keyDef = true →
  let r := validateEnv env schema options in
  ValidationIssue.mk keyName type_ "Required key missing" None
    ∈ ValidationResult.errors r
  ∧ count_issue keyName type_ (ValidationResult.errors r) = 1%nat
  ∧ count_issue keyName missing (ValidationResult.errors r) = 0%nat
  ∧ count_issue keyName missing (ValidationResult.warnings r) = 0%nat
  ∧ Stats.missing (ValidationResult.stats r)
    = length (filter (λ e, ValidationIssue.type e = missing
                           ∧ ValidationIssue.key e ≠ keyName)
                     (ValidationResult.errors r)).
Proof.
  intros Henv Hdef Hreq r. subst r.
  assert (typeIssues keyName "" keyDef
          = [ValidationIssue.mk keyName type_ "Required key missing" None])
    as Htype.
  { unfold typeIssues. by rewrite validateEnvValue_empty, Hreq. }
  assert (count_issue keyName missing
            (ValidationResult.errors (validateEnv env schema options)) = 0%nat)
    as Hmissing.
  { rewrite count_issue_missing, Hdef. by rewrite missingOf_present. }
  split_and!.
  - eapply entryErrors_reported; [done|].
    rewrite (entryErrors_declared _ _ _ _ keyDef), Htype by done. by left.
  - rewrite count_issue_missing_errors, Henv by done.
    rewrite (entryErrors_declared _ _ _ _ keyDef), Htype by done.
    rewrite count_issue_app, count_issue_same.
    unfold patternIssues. repeat case_match; try done.
    by rewrite count_issue_other_kind.
  - done.
  - rewrite count_issue_warnings, Henv.
    rewrite (entryWarnings_declared _ _ _ _ keyDef) by done.
    unfold deprecationIssues. case_match; [|done].
    by rewrite count_issue_other_kind.
  - rewrite validateEnv_stats. simpl. by apply count_issue_ne_length.
Qed.

Lemma validateEnv_required_empty_witness :
  let r := @validateEnv sample_runtime empty_name_env (name_schema true None)
                        (Options.mk None None) in
  ValidationIssue.mk "NAME" type_ "Required key missing" None
    ∈ ValidationResult.errors r
  ∧ count_issue "NAME" type_ (ValidationResult.errors r) = 1%nat
  ∧ count_issue "NAME" missing (ValidationResult.errors r) = 0%nat
  ∧ count_issue "NAME" missing (ValidationResult.warnings r) = 0%nat
  ∧ Stats.missing (ValidationResult.stats r)
    = length (filter (λ e, ValidationIssue.type e = missing
                           ∧ ValidationIssue.key e ≠ "NAME")
                     (ValidationResult.errors r)).
Proof.
  apply (@validateEnv_required_empty sample_runtime empty_name_env
           (name_schema true None) (Options.mk None None) "NAME"
           (name_key true None));
    vm_compute; reflexivity.
Defined.

(** C8, as the code has it.  For a key that is not required, the type
    validator returns [Valid] on the empty value, and a run reports no
    [type] issue (bounds violations are [type] issues) and no [missing]
    issue for that key when the mapping holds it with the empty value; the
    pattern is still checked, and the run reports the [pattern] issues of
    that check.  When the mapping does not hold the key, the run reports no
    issue at all for it. *)
Theorem validateEnv_optional_empty `{Runtime} (env : gmap string string)
    (schema : Schema.t) (options : Options.t) (keyName : string)
    (keyDef : SchemaKey.t) :
  Schema.keys schema !! keyName = Some keyDef →
  SchemaKey.required keyDef = false →
  let r := validateEnv env schema options in
  let issues := ValidationResult.errors r ++ ValidationResult.warnings r in
  validateEnvValue "" keyDef = Valid
  ∧ (env !! keyName = Some "" →
     count_issue keyName type_ issues = 0%nat
     ∧ count_issue keyName missing issues = 0%nat
     ∧ count_issue keyName pattern issues
       = length (patternIssues keyName "" keyDef))
  ∧ (env !! keyName = None → ∀ kind, count_issue keyName kind issues = 0%nat).
Proof.
  intros Hdef Hreq r issues. subst r issues.
  assert (validateEnvValue "" keyDef = Valid) as Hvalid.
  { by rewrite validateEnvValue_empty, Hreq. }
  assert (count_issue keyName missing
            (ValidationResult.errors (validateEnv env schema options)) = 0%nat)
    as Hmissing.
  { rewrite count_issue_missing, Hdef.
    unfold missingOf, checkMissing. by rewrite Hreq. }
  split_and!; [done| |].
  - intros Henv. rewrite !count_issue_app, Hmissing.
    rewrite !count_issue_missing_errors, !count_issue_warnings, Henv by done.
    rewrite (entryErrors_declared _ _ _ _ keyDef) by done.
    rewrite (entryWarnings_declared _ _ _ _ keyDef) by done.
    rewrite !count_issue_app.
    unfold typeIssues. rewrite Hvalid. simpl.
    unfold deprecationIssues, patternIssues.
    repeat case_match; simpl;
      rewrite ?count_issue_same, ?count_issue_nil;
      rewrite ?count_issue_other_kind by done; done.
  - intros Henv kind. rewrite count_issue_app, count_issue_warnings, Henv.
    destruct (decide (kind = missing)) as [->|Hkind]; [by rewrite Hmissing|].
    by rewrite count_issue_missing_errors, Henv.
Qed.

Lemma validateEnv_optional_empty_witness :
  let r := @validateEnv sample_runtime empty_name_env
             (name_schema false (Some "^abc$")) (Options.mk None None) in
  let issues := ValidationResult.errors r ++ ValidationResult.warnings r in
  @validateEnvValue sample_runtime "" (name_key false (Some "^abc$")) = Valid
  ∧ count_issue "NAME" type_ issues = 0%nat
  ∧ count_issue "NAME" missing issues = 0%nat
  ∧ count_issue "NAME" pattern issues = 1%nat.
Proof.
  destruct (@validateEnv_optional_empty sample_runtime empty_name_env
              (name_schema false (Some "^abc$")) (Options.mk None None) "NAME"
              (name_key false (Some "^abc$")))
    as (Hvalid & Hpresent & _); [vm_compute; reflexivity ..|].
  destruct Hpresent as (Htype & Hmissing & Hpattern); [vm_compute; reflexivity|].
  split_and!; [exact Hvalid|exact Htype|exact Hmissing|].
  etrans; [exact Hpattern|]. vm_compute. reflexivity.
Defined.

(** C8 as stated fails: an optional key with a pattern, given the empty
    value, gets a [pattern] error. *)
Lemma optional_empty_value_pattern_error :
  let r := @validateEnv sample_runtime empty_name_env
             (name_schema false (Some "^abc$")) (Options.mk None None) in
  SchemaKey.required (name_key false (Some "^abc$")) = false
  ∧ ValidationResult.errors r
    = [ValidationIssue.mk "NAME" pattern
         "Value does not match pattern: ^abc$" None]
  ∧ ValidationResult.ok r = false.
Proof. vm_compute. done. Qed.

(** ** Invalid patterns *)

Lemma message_prefixes_differ (p q : string) :
  "Invalid regex pattern: " +:+ p ≠ "Value does not match pattern: " +:+ q.
Proof. simpl. intros [=]. Qed.

(** C7.  When the pattern of a key is not a valid regular expression, the
    pattern check returns an invalid result whose message names the
    pattern and differs from every value-mismatch message, and a run
    reports it as exactly one [pattern] error of that key, whatever the
    value.  The check returns one of its three results on every pair of
    strings: the exception of the constructor is caught. *)
Theorem validatePattern_invalid_pattern `{Runtime}
    (value pattern_ reason : string) :
  RegExp_new pattern_ = Throw reason →
  validatePattern value pattern_
  = Invalid ("Invalid regex pattern: " +:+ pattern_)
  ∧ (∀ other, "Invalid regex pattern: " +:+ pattern_
              ≠ "Value does not match pattern: " +:+ other)
  ∧ (∀ v p, validatePattern v p = Valid
            ∨ validatePattern v p
              = Invalid ("Value does not match pattern: " +:+ p)
            ∨ validatePattern v p = Invalid ("Invalid regex pattern: " +:+ p))
  ∧ (∀ (env : gmap string string) (schema : Schema.t) (options : Options.t)
       (keyName : string) (keyDef : SchemaKey.t),
       env !! keyName = Some value →
       Schema.keys schema !! keyName = Some keyDef →
       SchemaKey.pattern keyDef = Some pattern_ →
       let r := validateEnv env schema options in
       ValidationIssue.mk keyName pattern
         ("Invalid regex pattern: " +:+ pattern_) None
         ∈ ValidationResult.errors r
       ∧ count_issue keyName pattern (ValidationResult.errors r) = 1%nat).
Proof.
  intros Hthrow.
  assert (validatePattern value pattern_
          = Invalid ("Invalid regex pattern: " +:+ pattern_)) as Hinvalid.
  { unfold validatePattern. by rewrite Hthrow. }
  assert (truthy pattern_ = true) as Htruthy.
  { destruct pattern_ as [|c rest]; [|done].
    destruct RegExp_new_empty as [regex Hempty]. congruence. }
  split_and!.
  - done.
  - intros other. apply message_prefixes_differ.
  - intros v p. unfold validatePattern.
    destruct (RegExp_new p) as [regex|msg]; simpl; [|auto].
    destruct (RegExp_test regex v); simpl; auto.
  - intros env schema options keyName keyDef Henv Hdef Hpattern r. subst r.
    assert (patternIssues keyName value keyDef
            = [ValidationIssue.mk keyName pattern
                 ("Invalid regex pattern: " +:+ pattern_) None]) as Hissues.
    { unfold patternIssues. by rewrite Hpattern, Htruthy, Hinvalid. }
    split.
    + eapply entryErrors_reported; [done|].
      rewrite (entryErrors_declared _ _ _ _ keyDef), Hissues by done.
      rewrite elem_of_app. right. by left.
    + rewrite count_issue_missing_errors, Henv by done.
      rewrite (entryErrors_declared _ _ _ _ keyDef), Hissues by done.
      rewrite count_issue_app, count_issue_same.
      unfold typeIssues. case_match; [|done].
      by rewrite count_issue_other_kind.
Qed.

Lemma validatePattern_invalid_pattern_witness :
  @validatePattern sample_runtime "abc" "["
  = Invalid ("Invalid regex pattern: " +:+ "[")
  ∧ (let r := @validateEnv sample_runtime {[ "NAME" := "abc" ]}
                (name_schema true (Some "[")) (Options.mk None None) in
     ValidationIssue.mk "NAME" pattern ("Invalid regex pattern: " +:+ "[") None
       ∈ ValidationResult.errors r
     ∧ count_issue "NAME" pattern (ValidationResult.errors r) = 1%nat).
Proof.
  assert (@RegExp_new sample_runtime "[" = Throw "Invalid regular expression: /[/")
    as Hthrow by (vm_compute; reflexivity).
  destruct (@validatePattern_invalid_pattern sample_runtime "abc" "[" _ Hthrow)
    as (Hinvalid & _ & _ & Hrun).
  split; [exact Hinvalid|].
  apply (Hrun {[ "NAME" := "abc" ]} (name_schema true (Some "["))
           (Options.mk None None) "NAME" (name_key true (Some "[")));
    vm_compute; reflexivity.
Defined.

(** ** Overlay of env files *)

Section parser_facts.
Context `{FileSystem}.

Lemma lookup_Object_assign {V} (target source : gmap string V) (k : string) :
  Object_assign target source !! k
  = match source !! k with
    | Some v => Some v
    | None => target !! k
    end.
Proof.
  unfold Object_assign. destruct (source !! k) as [v|] eqn:E.
  - by apply lookup_union_Some_l.
  - by rewrite lookup_union_r.
Qed.

(** One more path at the end of the sequence: its file is recorded last
    and its content is written over what was merged so far. *)
Lemma parseEnvFiles_from_snoc files merged envPaths envPath r file :
  parseEnvFiles_from files merged envPaths = Return r →
  readEnvFile envPath = Return file →
  parseEnvFiles_from files merged (envPaths ++ [envPath])
  = Return (ParsedEnv.mk (ParsedEnv.files r ++ [file])
              (Object_assign (ParsedEnv.merged r) (EnvFile.content file))).
Proof.
  intros Hrun Hread. revert files merged Hrun.
  induction envPaths as [|p envPaths IH]; intros files merged Hrun; simpl in *.
  - injection Hrun as <-. by rewrite Hread.
  - destruct (readEnvFile p) as [f|msg]; simpl in *; [by apply IH|done].
Qed.

End parser_facts.

(** C6.  For two files A and B that can be read, [parseEnvFiles] on
    [A, B] returns a mapping in which a key of B has the value of B and a
    key that B lacks has what A has for it; when A and B give different
    values to some key, the mappings of [A, B] and [B, A] differ.  In
    general a further file at the end of any sequence overrides, key by
    key, what the sequence merged. *)
Theorem parseEnvFiles_overlay `{FileSystem} (pathA pathB : string)
    (fileA fileB : EnvFile.t) :
  readEnvFile pathA = Return fileA →
  readEnvFile pathB = Return fileB →
  let A := EnvFile.content fileA in
  let B := EnvFile.content fileB in
  ∃ ab ba,
    parseEnvFiles [pathA; pathB] = Return ab
    ∧ parseEnvFiles [pathB; pathA] = Return ba
    ∧ (∀ k v, B !! k = Some v → ParsedEnv.merged ab !! k = Some v)
    ∧ (∀ k, B !! k = None → ParsedEnv.merged ab !! k = A !! k)
    ∧ (∀ k va vb, A !! k = Some va → B !! k = Some vb → va ≠ vb →
                  ParsedEnv.merged ab ≠ ParsedEnv.merged ba)
    ∧ (∀ envPaths r,
         parseEnvFiles envPaths = Return r →
         ∃ r', parseEnvFiles (envPaths ++ [pathB]) = Return r'
               ∧ ∀ k, ParsedEnv.merged r' !! k
                      = match B !! k with
                        | Some v => Some v
                        | None => ParsedEnv.merged r !! k
                        end).
Proof.
  intros HA HB A B. subst A B.
  eexists _, _. split_and!.
  - unfold parseEnvFiles. cbn [parseEnvFiles_from]. rewrite HA. cbn [bind].
    rewrite HB. cbn [bind]. done.
  - unfold parseEnvFiles. cbn [parseEnvFiles_from]. rewrite HB. cbn [bind].
    rewrite HA. cbn [bind]. done.
  - intros k v Hk. cbn [ParsedEnv.merged].
    by rewrite lookup_Object_assign, Hk.
  - intros k Hk. cbn [ParsedEnv.merged].
    rewrite !lookup_Object_assign, Hk, lookup_empty.
    by destruct (EnvFile.content fileA !! k).
  - intros k va vb Ha Hb Hne Heq. cbn [ParsedEnv.merged] in Heq.
    apply (f_equal (λ m : gmap string string, m !! k)) in Heq.
    rewrite !lookup_Object_assign, Ha, Hb in Heq. congruence.
  - intros envPaths r Hr. eexists. split.
    + unfold parseEnvFiles in *. by apply parseEnvFiles_from_snoc.
    + intros k. cbn [ParsedEnv.merged]. by rewrite lookup_Object_assign.
Qed.

Lemma parseEnvFiles_overlay_witness :
  ∃ ab ba,
    @parseEnvFiles sample_fs [".env"; ".env.local"] = Return ab
    ∧ @parseEnvFiles sample_fs [".env.local"; ".env"] = Return ba
    ∧ ParsedEnv.merged ab !! "PORT" = Some "4000"
    ∧ ParsedEnv.merged ab !! "NODE_ENV" = Some "development"
    ∧ ParsedEnv.merged ab ≠ ParsedEnv.merged ba.
Proof.
  destruct (@parseEnvFiles_overlay sample_fs ".env" ".env.local"
              base_file local_file)
    as (ab & ba & Hab & Hba & Hboth & Honly & Hdiffer & _);
    [vm_compute; reflexivity ..|].
  exists ab, ba. split_and!; [exact Hab|exact Hba| | |].
  - apply Hboth. vm_compute. reflexivity.
  - etrans; [apply Honly|]; vm_compute; reflexivity.
  - apply (Hdiffer "PORT" "3000" "4000"); [vm_compute; reflexivity ..|].
    intros [=].
Defined.

(** ** Schema normalisation *)

Lemma string_branch_required checks key :
  SchemaKey.required (string_branch checks key) = SchemaKey.required key
  ∧ SchemaKey.default (string_branch checks key) = SchemaKey.default key.
Proof. unfold string_branch. by repeat case_match. Qed.

Lemma number_branch_required checks key :
  SchemaKey.required (number_branch checks key) = SchemaKey.required key
  ∧ SchemaKey.default (number_branch checks key) = SchemaKey.default key.
Proof. unfold number_branch. simpl. by repeat case_match. Qed.

(** A wrapper node is normalised to what its inner node is normalised to. *)
Lemma parseZodType_wrapper keyName a innerType defaultValue :
  parseZodType keyName (ZodOptional a innerType) = parseZodType keyName innerType
  ∧ parseZodType keyName (ZodDefault a innerType defaultValue)
    = parseZodType keyName innerType.
Proof. done. Qed.

(** Hence no field comes out optional, and none carries a default. *)
Lemma parseZodType_required keyName zodType :
  SchemaKey.required (parseZodType keyName zodType) = true
  ∧ SchemaKey.default (parseZodType keyName zodType) = None.
Proof.
  induction zodType as [a checks|a checks|a|a values|a inner IH|a inner IH dv|a];
    try exact IH; simpl.
  - rewrite (proj1 (string_branch_required _ _)), (proj2 (string_branch_required _ _)).
    by repeat case_match.
  - rewrite (proj1 (number_branch_required _ _)), (proj2 (number_branch_required _ _)).
    by repeat case_match.
  - by repeat case_match.
  - by repeat case_match.
  - by repeat case_match.
Qed.

(** C1 on the code.  The optional field [DEBUG] and the defaulted field
    [PORT] are normalised with [required = true] and without default, and
    the run of the test "should handle optional keys", which expects
    [ok = true] and no error, reports [DEBUG] as missing. *)
Theorem parseZodType_drops_wrapper_flags :
  parseZodType "DEBUG" zod_DEBUG
  = SchemaKey.mk "DEBUG" "boolean" None None None None None
                 true false None None None None
  ∧ parseZodType "PORT" zod_PORT
    = SchemaKey.mk "PORT" "port" None None None None None
                   true false None None
                   (Some (number_of_Z 1)) (Some (number_of_Z 65535))
  ∧ (let r := @validateEnv sample_runtime development_env optional_keys_schema
                           (Options.mk None None) in
     ValidationResult.ok r = false
     ∧ ValidationResult.errors r
       = [ValidationIssue.mk "DEBUG" missing "Required key missing" None]).
Proof. vm_compute. done. Qed.

Lemma parseJsonKey_required keyName keyDef :
  SchemaKey.required (parseJsonKey keyName keyDef)
  = negb (truthy (JsonKeyDef.optional keyDef)).
Proof. unfold parseJsonKey. by repeat case_match. Qed.

(** C2 on the code.  [required] is the negation of the [optional] flag
    whatever the entry says under [required]: the entry [FEATURE_X], which
    carries [required: false] and no [optional], comes out required. *)
Theorem parseJsonKey_ignores_required_flag :
  JsonKeyDef.required json_FEATURE_X = Some false
  ∧ JsonKeyDef.optional json_FEATURE_X = None
  ∧ parseJsonKey "FEATURE_X" json_FEATURE_X
    = SchemaKey.mk "FEATURE_X" "enum" (Some "Toggle feature X") None None
                   (Some ["on"; "off"]) None true false None None None None
  ∧ (∀ keyName keyDef,
       SchemaKey.required (parseJsonKey keyName keyDef)
       = negb (truthy (JsonKeyDef.optional keyDef))).
Proof. split_and!; [done..|]. apply parseJsonKey_required. Qed.

(** ** Redaction *)

(** A property of the redacted object, in terms of the property of the
    given one. *)
Lemma get_redactSecrets schema fields key :
  ∃ fields', redactSecrets schema (JsObject fields) = JsObject fields'
    ∧ get key fields'
      = (λ value, if is_secret schema key && is_string value
                  then JsString "<redacted>"
                  else redactSecrets schema value) <$> get key fields.
Proof.
  eexists. split; [done|].
  induction fields as [|[k v] fields IH]; [done|].
  cbn [List.map get]. case_bool_decide as Hk; [|exact IH].
  subst k. simpl. case_match; [done|]. by destruct v.
Qed.

Lemma get_redactSecretsUtil secretKeys fields key :
  ∃ fields', redactSecretsUtil secretKeys (JsObject fields) = JsObject fields'
    ∧ get key fields'
      = (λ value,
           match value with
           | JsString s =>
               if includes secretKeys key then JsString (redactSecret s)
               else value
           | JsArray _ | JsObject _ => redactSecretsUtil secretKeys value
           | _ => value
           end) <$> get key fields.
Proof.
  eexists. split; [done|].
  induction fields as [|[k v] fields IH]; [done|].
  cbn [List.map get]. case_bool_decide as Hk; [|exact IH].
  subst k. simpl. destruct v; try done; by rewrite ?andb_false_r, ?andb_true_r.
Qed.

(** Induction on a value, with the hypothesis on every item of an array
    and on every property value of an object. *)
Lemma JsValue_nested_ind (P : JsValue → Prop) :
  P JsUndefined → P JsNull → (∀ b, P (JsBoolean b)) → (∀ n, P (JsNumber n)) →
  (∀ s, P (JsString s)) →
  (∀ items, Forall P items → P (JsArray items)) →
  (∀ fields, Forall (λ entry, P entry.2) fields → P (JsObject fields)) →
  ∀ v, P v.
Proof.
  intros Hu Hn Hb Hnum Hs Harr Hobj.
  fix go 1. intros [| |b|n|s|items|fields].
  - exact Hu.
  - exact Hn.
  - exact (Hb b).
  - exact (Hnum n).
  - exact (Hs s).
  - exact (Harr items
             ((fix items_ok (l : list JsValue) : Forall P l :=
                 match l with
                 | [] => @List.Forall_nil _ P
                 | item :: rest =>
                     @List.Forall_cons _ P item rest (go item) (items_ok rest)
                 end) items)).
  - exact (Hobj fields
             ((fix fields_ok (l : list (string * JsValue))
                 : Forall (λ entry, P entry.2) l :=
                 match l with
                 | [] => @List.Forall_nil _ _
                 | (key, value) :: rest =>
                     @List.Forall_cons _ (λ entry, P entry.2) (key, value) rest
                                       (go value) (fields_ok rest)
                 end) fields)).
Qed.

Lemma redactSecrets_object schema fields :
  redactSecrets schema (JsObject fields)
  = JsObject (List.map (λ entry, (entry.1, redactProperty schema entry.1 entry.2))
                       fields).
Proof.
  simpl. f_equal. apply List.map_ext. by intros [key value].
Qed.

Lemma redactSecrets_array schema items :
  redactSecrets schema (JsArray items)
  = JsArray (List.map (redactSecrets schema) items).
Proof. done. Qed.

Lemma redactSecrets_is_object schema v :
  is_object (redactSecrets schema v) = is_object v.
Proof. by destruct v. Qed.

Lemma redactSecrets_is_string schema v :
  is_string (redactSecrets schema v) = is_string v.
Proof. by destruct v. Qed.

Lemma field_of_object v key x : field_of v key x → is_object v = true.
Proof. by intros []. Qed.

Lemma elem_of_map {A B} (f : A → B) (l : list A) (y : B) :
  y ∈ List.map f l ↔ ∃ x, y = f x ∧ x ∈ l.
Proof. exact (list_elem_of_fmap f l y). Qed.

Lemma field_of_redactProperty schema name value key x :
  field_of (redactProperty schema name value) key x →
  is_object value = true
  ∧ redactProperty schema name value = redactSecrets schema value.
Proof.
  unfold redactProperty. intros Hfield.
  destruct (is_secret schema name && is_string value).
  { inversion Hfield. }
  destruct (is_object value) eqn:Hobject; [done|].
  apply field_of_object in Hfield. congruence.
Qed.

(** No secret string is left, at any depth. *)
Lemma redactSecrets_field_safe schema obj key s :
  field_of (redactSecrets schema obj) key (JsString s) →
  is_secret schema key = true →
  s = "<redacted>".
Proof.
  revert key s.
  induction obj as [| |b|n|s'|items IH|fields IH] using JsValue_nested_ind;
    intros key s Hfield Hsecret; try by inversion Hfield.
  - rewrite redactSecrets_array in Hfield.
    inversion Hfield as [| |? child ? ? Hin Hchild]; subst.
    apply elem_of_map in Hin as (item & -> & Hitem).
    rewrite Forall_forall in IH. by apply (IH item Hitem key s).
  - rewrite redactSecrets_object in Hfield. rewrite Forall_forall in IH.
    inversion Hfield as [? ? ? Hin|? name child ? ? Hin Hchild|]; subst.
    + apply elem_of_map in Hin as ([name value] & [= -> Hvalue] & Hentry).
      cbn [fst snd] in Hvalue. unfold redactProperty in Hvalue.
      rewrite Hsecret in Hvalue. cbn [andb] in Hvalue.
      destruct (is_string value) eqn:Hstring; [congruence|].
      destruct (is_object value) eqn:Hobject.
      * pose proof (redactSecrets_is_string schema value) as Hs.
        rewrite <- Hvalue, Hstring in Hs. discriminate.
      * rewrite <- Hvalue in Hstring. discriminate.
    + apply elem_of_map in Hin as ([name' value] & [= -> ->] & Hentry).
      cbn [fst snd] in Hchild.
      destruct (field_of_redactProperty _ _ _ _ _ Hchild) as [_ Heq].
      rewrite Heq in Hchild. by apply (IH _ Hentry key s).
Qed.

(** Every secret string is replaced, where it stands. *)
Lemma redactSecrets_field_redacted schema obj key s :
  field_of obj key (JsString s) →
  is_secret schema key = true →
  field_of (redactSecrets schema obj) key (JsString "<redacted>").
Proof.
  intros Hfield Hsecret. remember (JsString s) as x eqn:Hx.
  induction Hfield as [fields key x Hin|fields name child key x Hin Hchild IH
                      |items child key x Hin Hchild IH].
  - subst x. rewrite redactSecrets_object. apply field_here.
    apply elem_of_map. exists (key, JsString s). split; [|done].
    cbn [fst snd]. unfold redactProperty. by rewrite Hsecret.
  - rewrite redactSecrets_object.
    apply (field_in_object _ name (redactSecrets schema child)); [|by apply IH].
    apply elem_of_map. exists (name, child). split; [|done].
    cbn [fst snd]. unfold redactProperty.
    pose proof (field_of_object _ _ _ Hchild) as Hobject.
    destruct child; try discriminate; by rewrite andb_false_r.
  - rewrite redactSecrets_array.
    apply (field_in_array _ (redactSecrets schema child)); [|by apply IH].
    apply elem_of_map. by exists child.
Qed.

(** C9, as the code has it.  In the output of [redactSecrets] of
    [formatJson], the string value of a key that the schema declares secret
    is the literal [<redacted>], at every nesting level, inside objects and
    arrays: a secret string of the input is replaced where it stands, and
    no property with a secret key holds any other string.  In the output
    of [redactSecrets] of [utils/redact] ([redactSecretsUtil]) the string
    value of a listed key is [redactSecret] of it, which keeps the first
    two and the last two characters of a value that has more than four,
    around bullets. *)
Theorem redactSecrets_literal (schema : Schema.t) (obj : JsValue)
    (key s : string) :
  is_secret schema key = true →
  field_of obj key (JsString s) →
  (field_of (redactSecrets schema obj) key (JsString "<redacted>")
   ∧ ∀ s', field_of (redactSecrets schema obj) key (JsString s') →
           s' = "<redacted>")
  ∧ (∀ fields, obj = JsObject fields → get key fields = Some (JsString s) →
     ∃ fields', redactSecrets schema obj = JsObject fields'
       ∧ get key fields' = Some (JsString "<redacted>"))
  ∧ (∀ secretKeys fields,
       includes secretKeys key = true →
       obj = JsObject fields → get key fields = Some (JsString s) →
       ∃ fields', redactSecretsUtil secretKeys obj = JsObject fields'
         ∧ get key fields' = Some (JsString (redactSecret s)))
  ∧ (4 < String.length s →
     redactSecret s
     = slice_first 2 s +:+ repeat_bullet (String.length s - 4)
       +:+ slice_last 2 s).
Proof.
  intros Hsecret Hfield. split_and!.
  - by apply (redactSecrets_field_redacted _ _ _ s).
  - intros s' Hout. by apply (redactSecrets_field_safe schema obj key).
  - intros fields -> Hget.
    destruct (get_redactSecrets schema fields key) as (fields' & Heq & Hkey).
    exists fields'. split; [done|]. by rewrite Hkey, Hget, Hsecret.
  - intros secretKeys fields Hlisted -> Hget.
    destruct (get_redactSecretsUtil secretKeys fields key)
      as (fields' & Heq & Hkey).
    exists fields'. split; [done|]. by rewrite Hkey, Hget, Hlisted.
  - intros Hlen. unfold redactSecret.
    destruct s as [|c s]; [simpl in Hlen; lia|]. simpl truthy. cbn [negb].
    by rewrite bool_decide_eq_false_2 by lia.
Qed.

Lemma redactSecrets_literal_witness :
  field_of (redactSecrets secret_schema nested_view)
           "SECRET_TOKEN" (JsString "<redacted>")
  ∧ ∀ s', field_of (redactSecrets secret_schema nested_view)
                   "SECRET_TOKEN" (JsString s') →
          s' = "<redacted>".
Proof.
  destruct (redactSecrets_literal secret_schema nested_view
              "SECRET_TOKEN" "abcdefgh") as [Hdeep _].
  - vm_compute. reflexivity.
  - eapply field_in_object;
      [apply list_elem_of_further, list_elem_of_here|].
    eapply field_in_array; [apply list_elem_of_here|].
    apply field_here. apply list_elem_of_further, list_elem_of_here.
  - exact Hdeep.
Defined.

(** C9 as stated fails on the second redactor: it keeps the first two and
    the last two characters of the secret. *)
Lemma redactSecretsUtil_partial_mask :
  redactSecretsUtil ["SECRET_TOKEN"] env_view
  = JsObject [("NODE_ENV", JsString "development");
              ("SECRET_TOKEN",
               JsString ("ab" +:+ bullet +:+ bullet +:+ bullet +:+ bullet
                         +:+ "gh"))]
  ∧ JsString ("ab" +:+ bullet +:+ bullet +:+ bullet +:+ bullet +:+ "gh")
    ≠ JsString "<redacted>".
Proof. split; [vm_compute; reflexivity|]. vm_compute. intros [=]. Qed.

(** * Further properties of the code *)

(** ** The issues of one key *)

Lemma issues_of_app keyName l1 l2 :
  issues_of keyName (l1 ++ l2) = issues_of keyName l1 ++ issues_of keyName l2.
Proof. apply filter_app. Qed.

Lemma issues_of_all keyName l :
  Forall (λ i, ValidationIssue.key i = keyName) l → issues_of keyName l = l.
Proof.
  unfold issues_of. induction 1 as [|e l He _ IH]; [done|].
  by rewrite filter_cons_True, IH.
Qed.

Lemma issues_of_none keyName l :
  Forall (λ i, ValidationIssue.key i ≠ keyName) l → issues_of keyName l = [].
Proof.
  unfold issues_of. induction 1 as [|e l He _ IH]; [done|].
  by rewrite filter_cons_False.
Qed.

Section issues_of_entries.
Context {V : Type} (f : string * V → list ValidationIssue.t).
Context (keyName : string).
Hypothesis f_key : ∀ e, Forall (λ i, ValidationIssue.key i = e.1) (f e).

Lemma issues_of_other_entry e : e.1 ≠ keyName → issues_of keyName (f e) = [].
Proof using f_key.
  intros Hne. apply issues_of_none.
  eapply Forall_impl; [apply f_key|]. simpl. by intros i ->.
Qed.

Lemma issues_of_absent (l : list (string * V)) :
  keyName ∉ l.*1 → issues_of keyName (l ≫= f) = [].
Proof using f_key.
  induction l as [|[k v] l IH]; [done|].
  rewrite fmap_cons, not_elem_of_cons. intros [Hne Hnot].
  rewrite bind_cons, issues_of_app, IH by done.
  by rewrite issues_of_other_entry.
Qed.

Lemma issues_of_present (l : list (string * V)) v :
  NoDup l.*1 → (keyName, v) ∈ l →
  issues_of keyName (l ≫= f) = f (keyName, v).
Proof using f_key.
  induction l as [|[k v'] l IH].
  - intros _ Hin. by apply elem_of_nil in Hin.
  - rewrite fmap_cons, NoDup_cons, elem_of_cons. intros [Hk Hnd] Hin.
    rewrite bind_cons, issues_of_app.
    destruct Hin as [[= <- <-]|Hin].
    + rewrite issues_of_absent, app_nil_r by done.
      apply issues_of_all, (f_key (keyName, v)).
    + assert (k ≠ keyName) as Hne.
      { intros ->. apply Hk. apply list_elem_of_fmap. by exists (keyName, v). }
      rewrite issues_of_other_entry by done. by rewrite IH.
Qed.

Lemma issues_of_entries (m : gmap string V) :
  issues_of keyName (map_to_list m ≫= f)
  = match m !! keyName with
    | Some v => f (keyName, v)
    | None => []
    end.
Proof using f_key.
  destruct (m !! keyName) as [v|] eqn:E.
  - apply issues_of_present; [apply NoDup_fst_map_to_list|].
    by apply elem_of_map_to_list.
  - apply issues_of_absent. intros Hin.
    apply list_elem_of_fmap in Hin as ([k v] & -> & Hin).
    apply elem_of_map_to_list in Hin. simpl in *. congruence.
Qed.

End issues_of_entries.

Section per_key_facts.
Context `{Runtime}.
Implicit Types (env : gmap string string) (schema : Schema.t).
Implicit Types (options : Options.t).

Lemma errors_of_key env schema options keyName :
  issues_of keyName (ValidationResult.errors (validateEnv env schema options))
  = match env !! keyName, Schema.keys schema !! keyName with
    | None, Some keyDef =>
        if SchemaKey.required keyDef && negb (inherited keyName)
        then [ValidationIssue.mk keyName missing "Required key missing" None]
        else []
    | None, None => []
    | Some value, Some keyDef =>
        typeIssues keyName value keyDef ++ patternIssues keyName value keyDef
    | Some value, None =>
        if inherited keyName then []
        else if truthy (Options.strict options) then [unknownIssue keyName]
        else []
    end.
Proof.
  rewrite validateEnv_errors, issues_of_app.
  rewrite !issues_of_entries by first [apply missingOf_key|apply entryErrors_key].
  destruct (env !! keyName) as [value|] eqn:Henv,
           (Schema.keys schema !! keyName) as [keyDef|] eqn:Hdef.
  - rewrite missingOf_present by (by rewrite Henv).
    by rewrite (entryErrors_declared _ _ _ _ keyDef).
  - destruct (inherited keyName) eqn:Hproto.
    + by rewrite entryErrors_inherited.
    + by rewrite entryErrors_undeclared.
  - rewrite app_nil_r. destruct (inherited keyName) eqn:Hproto.
    + by rewrite missingOf_inherited, andb_false_r.
    + by rewrite missingOf_absent, andb_true_r.
  - done.
Qed.

Lemma warnings_of_key env schema options keyName :
  issues_of keyName (ValidationResult.warnings (validateEnv env schema options))
  = match env !! keyName, Schema.keys schema !! keyName with
    | Some value, Some keyDef => deprecationIssues keyName keyDef
    | Some value, None =>
        if inherited keyName then []
        else if truthy (Options.strict options) then []
        else [unknownIssue keyName]
    | None, _ => []
    end.
Proof.
  rewrite validateEnv_warnings.
  rewrite issues_of_entries by apply entryWarnings_key.
  destruct (env !! keyName) as [value|] eqn:Henv,
           (Schema.keys schema !! keyName) as [keyDef|] eqn:Hdef; try done.
  - by rewrite (entryWarnings_declared _ _ _ _ keyDef).
  - destruct (inherited keyName) eqn:Hproto.
    + by rewrite entryWarnings_inherited.
    + by rewrite entryWarnings_undeclared.
Qed.


Lemma issues_of_elem keyName issue (l : list ValidationIssue.t) :
  issue ∈ issues_of keyName l ↔ ValidationIssue.key issue = keyName ∧ issue ∈ l.
Proof. unfold issues_of. by rewrite list_elem_of_filter. Qed.

Lemma ok_false_of_error env schema options issue :
  issue ∈ ValidationResult.errors (validateEnv env schema options) →
  ValidationResult.ok (validateEnv env schema options) = false.
Proof.
  intros Hin. rewrite validateEnv_ok.
  destruct (ValidationResult.errors _); [by apply elem_of_nil in Hin|done].
Qed.

End per_key_facts.


Lemma length_filter_elem {A} (P : A → Prop) `{!∀ x, Decision (P x)}
    (l : list A) (x : A) :
  x ∈ l → P x → 1 ≤ length (filter P l).
Proof.
  intros Hin HP.
  assert (x ∈ filter P l) as Hf by by apply list_elem_of_filter.
  destruct (filter P l); [by apply elem_of_nil in Hf|simpl; lia].
Qed.

(** X2.  A key that the schema requires and the mapping lacks, and that
    does not name a member that plain objects inherit from
    [Object.prototype] (the test [keyName in env] finds those), is reported
    by exactly one error, of kind [missing], and by no warning, whatever
    the other keys and the options are; the run fails and [stats.missing]
    counts it. *)
Theorem validateEnv_missing_required `{Runtime} (env : gmap string string)
    (schema : Schema.t) (options : Options.t) (keyName : string)
    (keyDef : SchemaKey.t) :
  Schema.keys schema !! keyName = Some keyDef →
  SchemaKey.required keyDef = true →
  env !! keyName = None →
  inherited keyName = false →
  let r := validateEnv env schema options in
  issues_of keyName (ValidationResult.errors r)
  = [ValidationIssue.mk keyName missing "Required key missing" None]
  ∧ issues_of keyName (ValidationResult.warnings r) = []
  ∧ ValidationResult.ok r = false
  ∧ 1 ≤ Stats.missing (ValidationResult.stats r).
Proof.
  intros Hdef Hreq Henv Hplain r. subst r.
  assert (issues_of keyName
            (ValidationResult.errors (validateEnv env schema options))
          = [ValidationIssue.mk keyName missing "Required key missing" None])
    as Herrors.
  { by rewrite errors_of_key, Henv, Hdef, Hreq, Hplain. }
  assert (ValidationIssue.mk keyName missing "Required key missing" None
          ∈ ValidationResult.errors (validateEnv env schema options)) as Hin.
  { eapply issues_of_elem. rewrite Herrors. by left. }
  split_and!.
  - done.
  - by rewrite warnings_of_key, Henv.
  - by eapply ok_false_of_error.
  - rewrite validateEnv_stats. simpl. unfold count_type.
    by eapply length_filter_elem.
Qed.

Lemma validateEnv_missing_required_witness :
  let r := @validateEnv sample_runtime ∅ (name_schema true None)
                        (Options.mk None None) in
  issues_of "NAME" (ValidationResult.errors r)
  = [ValidationIssue.mk "NAME" missing "Required key missing" None]
  ∧ issues_of "NAME" (ValidationResult.warnings r) = []
  ∧ ValidationResult.ok r = false
  ∧ 1 ≤ Stats.missing (ValidationResult.stats r).
Proof.
  apply (@validateEnv_missing_required sample_runtime ∅ (name_schema true None)
           (Options.mk None None) "NAME" (name_key true None));
    vm_compute; reflexivity.
Defined.

(** ** Well-formed results *)

Lemma well_formed_Invalid prefix rest :
  prefix ≠ "" → well_formed (Invalid (prefix +:+ rest)).
Proof.
  intros Hne. right. eexists. split; [done|].
  destruct prefix; [done|]. simpl. discriminate.
Qed.

Section well_formed_facts.
Context `{Runtime}.

Lemma validateNumber_well_formed value keyDef :
  well_formed (validateNumber value keyDef).
Proof.
  unfold validateNumber.
  repeat case_match; first [by left | by apply well_formed_Invalid].
Qed.

Lemma validateEnvValue_well_formed value keyDef :
  well_formed (validateEnvValue value keyDef).
Proof.
  unfold validateEnvValue.
  repeat match goal with
         | |- well_formed (if ?b then _ else _) => destruct b
         | |- well_formed (match ?o with Some _ => _ | None => _ end) => destruct o
         | |- well_formed (let _ := _ in _) => cbv zeta
         end;
    try apply validateNumber_well_formed;
    try (by left); try (by apply well_formed_Invalid).
  - right. eexists. split; [done|]. discriminate.
  - destruct (URL_new value); simpl; [by left|by apply well_formed_Invalid].
Qed.

Lemma validatePattern_well_formed value pattern_ :
  well_formed (validatePattern value pattern_).
Proof.
  unfold validatePattern. destruct (RegExp_new pattern_) as [regex|msg]; simpl.
  - destruct (RegExp_test regex value); simpl;
      [by left|by apply well_formed_Invalid].
  - by apply well_formed_Invalid.
Qed.

Lemma well_formed_message r :
  well_formed r → CheckResult.valid r = false →
  default "" (CheckResult.error r) ≠ "".
Proof. intros [->|(message & -> & Hne)]; [done|]. by intros _. Qed.

End well_formed_facts.

Section issue_invariants.
Context `{Runtime}.
Implicit Types (env : gmap string string) (schema : Schema.t).
Implicit Types (options : Options.t).

Lemma typeIssues_message keyName value keyDef :
  Forall (λ i, ValidationIssue.message i ≠ "") (typeIssues keyName value keyDef).
Proof.
  unfold typeIssues. cbv zeta.
  destruct (CheckResult.valid (validateEnvValue value keyDef)) eqn:Hvalid;
    simpl; [done|].
  apply Forall_singleton. simpl.
  by apply well_formed_message; [apply validateEnvValue_well_formed|].
Qed.

Lemma patternIssues_message keyName value keyDef :
  Forall (λ i, ValidationIssue.message i ≠ "")
         (patternIssues keyName value keyDef).
Proof.
  unfold patternIssues. destruct (SchemaKey.pattern keyDef) as [p|]; [|done].
  destruct (truthy p); [|done]. cbv zeta.
  destruct (CheckResult.valid (validatePattern value p)) eqn:Hvalid;
    simpl; [done|].
  apply Forall_singleton. simpl.
  by apply well_formed_message; [apply validatePattern_well_formed|].
Qed.

Lemma typeIssues_shape keyName value keyDef :
  Forall (λ i, ValidationIssue.key i = keyName
               ∧ ValidationIssue.type i = type_
               ∧ ValidationIssue.replacedBy i = None)
         (typeIssues keyName value keyDef).
Proof. unfold typeIssues. cbv zeta. case_match; [|done]. by apply Forall_singleton. Qed.

Lemma patternIssues_shape keyName value keyDef :
  Forall (λ i, ValidationIssue.key i = keyName
               ∧ ValidationIssue.type i = pattern
               ∧ ValidationIssue.replacedBy i = None)
         (patternIssues keyName value keyDef).
Proof.
  unfold patternIssues. cbv zeta. repeat case_match; try done.
  by apply Forall_singleton.
Qed.

Lemma deprecationMessage_ne replacedBy : deprecationMessage replacedBy ≠ "".
Proof. unfold deprecationMessage. by repeat case_match. Qed.

End issue_invariants.

(** X3.  Every issue of a run has a message that is not empty (the
    assertions [error!] of the orchestrator never meet [undefined]), names
    a key of the mapping or of the schema, and carries [replacedBy] only
    when it is a deprecation; an error is never a deprecation, and a
    warning is a deprecation or an unknown key. *)
Theorem validateEnv_issues_well_formed `{Runtime} (env : gmap string string)
    (schema : Schema.t) (options : Options.t) :
  let r := validateEnv env schema options in
  Forall (λ i, ValidationIssue.message i ≠ ""
               ∧ (is_Some (env !! ValidationIssue.key i)
                  ∨ is_Some (Schema.keys schema !! ValidationIssue.key i))
               ∧ ValidationIssue.replacedBy i = None
               ∧ ValidationIssue.type i ≠ deprecated)
         (ValidationResult.errors r)
  ∧ Forall (λ i, ValidationIssue.message i ≠ ""
                 ∧ is_Some (env !! ValidationIssue.key i)
                 ∧ (ValidationIssue.type i = deprecated
                    ∨ ValidationIssue.type i = unknown
                      ∧ ValidationIssue.replacedBy i = None))
           (ValidationResult.warnings r).
Proof.
  intros r. subst r. rewrite validateEnv_errors, validateEnv_warnings. split.
  - apply Forall_app. split.
    + apply Forall_bind, Forall_forall. intros [keyName keyDef] Hin.
      apply elem_of_map_to_list in Hin. unfold compose, missingOf, checkMissing.
      case_match; [|done]. apply Forall_singleton. simpl.
      split_and!; [done|right; by rewrite Hin|done|done].
    + apply Forall_bind, Forall_forall. intros [keyName value] Hin.
      apply elem_of_map_to_list in Hin. unfold compose.
      destruct (Schema.keys schema !! keyName) as [keyDef|] eqn:Hdef.
      * rewrite (entryErrors_declared _ _ _ _ keyDef) by done.
        apply Forall_app. split.
        -- eapply Forall_impl;
             [apply Forall_and; split;
                [apply typeIssues_message|apply typeIssues_shape]|].
           simpl. intros i (Hmsg & -> & -> & ->).
           split_and!; [done|left; by rewrite Hin|done|done].
        -- eapply Forall_impl;
             [apply Forall_and; split;
                [apply patternIssues_message|apply patternIssues_shape]|].
           simpl. intros i (Hmsg & -> & -> & ->).
           split_and!; [done|left; by rewrite Hin|done|done].
      * destruct (inherited keyName) eqn:Hproto;
          [by rewrite entryErrors_inherited|].
        rewrite entryErrors_undeclared by done. case_match; [|done].
        apply Forall_singleton. simpl.
        split_and!; [done|left; by rewrite Hin|done|done].
  - apply Forall_bind, Forall_forall. intros [keyName value] Hin.
    apply elem_of_map_to_list in Hin. unfold compose.
    destruct (Schema.keys schema !! keyName) as [keyDef|] eqn:Hdef.
    + rewrite (entryWarnings_declared _ _ _ _ keyDef) by done.
      unfold deprecationIssues. case_match; [|done].
      apply Forall_singleton. simpl.
      split_and!; [apply deprecationMessage_ne|by rewrite Hin|by left].
    + destruct (inherited keyName) eqn:Hproto;
        [by rewrite entryWarnings_inherited|].
      rewrite entryWarnings_undeclared by done. case_match; [done|].
      apply Forall_singleton. simpl.
      split_and!; [done|by rewrite Hin|by right].
Qed.

(** ** Strict mode *)

Lemma filter_bind {A B} (P : B → Prop) `{!∀ x, Decision (P x)}
    (f : A → list B) (l : list A) :
  filter P (l ≫= f) = l ≫= (λ x, filter P (f x)).
Proof.
  induction l as [|x l IH]; [done|]. by rewrite !bind_cons, filter_app, IH.
Qed.

Lemma bind_ext_in {A B} (f g : A → list B) (l : list A) :
  (∀ x, x ∈ l → f x = g x) → l ≫= f = l ≫= g.
Proof.
  induction l as [|x l IH]; intros Hfg; [done|].
  rewrite !bind_cons, Hfg by left. f_equal. apply IH. intros y Hy.
  apply Hfg. by right.
Qed.

Lemma bind_app_Permutation {A B} (f g : A → list B) (l : list A) :
  (l ≫= f) ++ (l ≫= g) ≡ₚ l ≫= (λ x, f x ++ g x).
Proof.
  induction l as [|x l IH]; [done|]. rewrite !bind_cons, <-IH.
  rewrite <-!(assoc_L (++)). f_equiv.
  rewrite !(assoc_L (++)). f_equiv. apply Permutation_app_comm.
Qed.

Lemma filter_all {A} (P : A → Prop) `{!∀ x, Decision (P x)} (l : list A) :
  Forall P l → filter P l = l.
Proof.
  induction 1 as [|x l Hx _ IH]; [done|]. by rewrite filter_cons_True, IH.
Qed.

Lemma filter_none {A} (P : A → Prop) `{!∀ x, Decision (P x)} (l : list A) :
  Forall (λ x, ¬ P x) l → filter P l = [].
Proof.
  induction 1 as [|x l Hx _ IH]; [done|]. by rewrite filter_cons_False.
Qed.

Section strict_facts.
Context `{Runtime}.
Implicit Types (env : gmap string string) (schema : Schema.t).
Implicit Types (options : Options.t).

(** The issues of a declared key do not depend on the options. *)
Lemma entry_declared_known options schema keyName value keyDef :
  Schema.keys schema !! keyName = Some keyDef →
  Forall (λ i, ValidationIssue.type i ≠ unknown)
         (entryErrors options schema (keyName, value))
  ∧ Forall (λ i, ValidationIssue.type i ≠ unknown)
           (entryWarnings options schema (keyName, value)).
Proof.
  intros Hdef. rewrite (entryErrors_declared _ _ _ _ keyDef) by done.
  rewrite (entryWarnings_declared _ _ _ _ keyDef) by done. split.
  - apply Forall_app. split.
    + eapply Forall_impl; [apply typeIssues_shape|]. simpl. by intros i (_ & -> & _).
    + eapply Forall_impl; [apply patternIssues_shape|]. simpl.
      by intros i (_ & -> & _).
  - unfold deprecationIssues. case_match; [|done]. by apply Forall_singleton.
Qed.

Lemma missing_known env schema :
  Forall (λ i, ValidationIssue.type i ≠ unknown)
         (map_to_list (Schema.keys schema) ≫= missingOf env).
Proof.
  apply Forall_bind, Forall_forall. intros entry _. unfold compose.
  eapply Forall_impl; [apply missingOf_type|]. simpl. by intros i ->.
Qed.

End strict_facts.

(** X4.  The [strict] option only reclassifies: a strict run and a lax
    run of the same mapping and schema report the same issues, the strict
    errors being the lax errors together with the [unknown] issues, which
    are the only warnings that a strict run drops. *)
Theorem strict_only_moves_unknown `{Runtime} (env : gmap string string)
    (schema : Schema.t) (lax strict_ : Options.t) :
  truthy (Options.strict lax) = false →
  truthy (Options.strict strict_) = true →
  let r0 := validateEnv env schema lax in
  let r1 := validateEnv env schema strict_ in
  ValidationResult.errors r0
  = filter (λ i, ValidationIssue.type i ≠ unknown) (ValidationResult.errors r1)
  ∧ ValidationResult.warnings r1
    = filter (λ i, ValidationIssue.type i ≠ unknown)
             (ValidationResult.warnings r0)
  ∧ filter (λ i, ValidationIssue.type i = unknown) (ValidationResult.errors r1)
    = filter (λ i, ValidationIssue.type i = unknown)
             (ValidationResult.warnings r0)
  ∧ ValidationResult.errors r0 ++ ValidationResult.warnings r0
    ≡ₚ ValidationResult.errors r1 ++ ValidationResult.warnings r1.
Proof.
  intros Hlax Hstrict r0 r1. subst r0 r1.
  rewrite !validateEnv_errors, !validateEnv_warnings.
  assert (Hentry : ∀ entry, entry ∈ map_to_list env →
    entryErrors lax schema entry
    = filter (λ i, ValidationIssue.type i ≠ unknown)
             (entryErrors strict_ schema entry)
    ∧ entryWarnings strict_ schema entry
      = filter (λ i, ValidationIssue.type i ≠ unknown)
               (entryWarnings lax schema entry)
    ∧ filter (λ i, ValidationIssue.type i = unknown)
             (entryErrors strict_ schema entry)
      = filter (λ i, ValidationIssue.type i = unknown)
               (entryWarnings lax schema entry)
    ∧ entryErrors lax schema entry ++ entryWarnings lax schema entry
      ≡ₚ entryErrors strict_ schema entry ++ entryWarnings strict_ schema entry).
  { intros [keyName value] _.
    destruct (Schema.keys schema !! keyName) as [keyDef|] eqn:Hdef.
    - destruct (entry_declared_known strict_ schema keyName value keyDef Hdef)
        as [He Hw].
      rewrite (filter_all _ _ He).
      rewrite (filter_none (λ i, ValidationIssue.type i = unknown)
                 (entryErrors strict_ schema (keyName, value)))
        by (eapply Forall_impl; [exact He|done]).
      rewrite !(entryErrors_declared _ _ _ _ keyDef) by done.
      rewrite !(entryWarnings_declared _ _ _ _ keyDef) by done.
      split_and!; try done.
      + symmetry. apply filter_all. unfold deprecationIssues.
        case_match; [|done]. by apply Forall_singleton.
      + symmetry. apply filter_none. unfold deprecationIssues.
        case_match; [|done]. by apply Forall_singleton.
    - destruct (inherited keyName) eqn:Hproto;
        [by rewrite !entryErrors_inherited, !entryWarnings_inherited|].
      rewrite !entryErrors_undeclared, !entryWarnings_undeclared by done.
      rewrite Hlax, Hstrict. split_and!; try done;
        repeat first [rewrite filter_cons_True by done
                     |rewrite filter_cons_False by (by intros ?)]; done. }
  split_and!.
  - rewrite filter_app, (filter_all _ _ (missing_known env schema)).
    f_equal. rewrite filter_bind. apply bind_ext_in. intros e He.
    by destruct (Hentry e He) as (-> & _).
  - rewrite filter_bind. apply bind_ext_in. intros e He.
    by destruct (Hentry e He) as (_ & -> & _).
  - rewrite filter_app.
    rewrite (filter_none (λ i, ValidationIssue.type i = unknown)
               (map_to_list (Schema.keys schema) ≫= missingOf env))
      by (eapply Forall_impl; [apply missing_known|done]).
    rewrite !filter_bind. apply bind_ext_in. intros e He.
    by destruct (Hentry e He) as (_ & _ & -> & _).
  - rewrite <-!(assoc_L (++)). f_equiv. rewrite !bind_app_Permutation.
    generalize (map_to_list env), Hentry. clear Hentry.
    intros l. induction l as [|e l IH]; intros Hentry; [done|].
    rewrite !bind_cons. f_equiv.
    + destruct (Hentry e) as (_ & _ & _ & Hp); [by left|done].
    + apply IH. intros e' He'. apply Hentry. by right.
Qed.

Lemma strict_only_moves_unknown_witness :
  let r0 := @validateEnv sample_runtime debug_env (name_schema true None)
                         (Options.mk None None) in
  let r1 := @validateEnv sample_runtime debug_env (name_schema true None)
                         (Options.mk (Some true) None) in
  ValidationResult.errors r0
  = filter (λ i, ValidationIssue.type i ≠ unknown) (ValidationResult.errors r1)
  ∧ ValidationResult.warnings r1
    = filter (λ i, ValidationIssue.type i ≠ unknown)
             (ValidationResult.warnings r0)
  ∧ filter (λ i, ValidationIssue.type i = unknown) (ValidationResult.errors r1)
    = filter (λ i, ValidationIssue.type i = unknown)
             (ValidationResult.warnings r0)
  ∧ ValidationResult.errors r0 ++ ValidationResult.warnings r0
    ≡ₚ ValidationResult.errors r1 ++ ValidationResult.warnings r1.
Proof.
  apply (@strict_only_moves_unknown sample_runtime debug_env
           (name_schema true None) (Options.mk None None)
           (Options.mk (Some true) None));
    vm_compute; reflexivity.
Defined.

(** ** The counters, in terms of the inputs *)





(** ** The verdict, in terms of the inputs *)

Section verdict_facts.
Context `{Runtime}.
Implicit Types (env : gmap string string) (schema : Schema.t).
Implicit Types (options : Options.t).







End verdict_facts.


(** ** The type validator, type by type *)

Lemma append_assoc (a b c : string) : (a +:+ b) +:+ c = a +:+ (b +:+ c).
Proof.
  induction a as [|x a IH]; [done|].
  change (String x ((a +:+ b) +:+ c) = String x (a +:+ (b +:+ c))).
  by f_equal.
Qed.

Lemma truthy_string (s : string) : truthy s = true ↔ s ≠ "".
Proof. by destruct s. Qed.

Lemma Number_isInteger_iff (x : number) :
  Number_isInteger x = true ↔ ∃ z, x = number_of_Z z.
Proof.
  destruct x as [|negative|q]; simpl.
  - split; [done|]. by intros [z [=]].
  - split; [done|]. by intros [z [=]].
  - rewrite bool_decide_eq_true. split.
    + intros Hden. exists (Qnum (this q)). unfold number_of_Z. f_equal.
      apply Qc_is_canon. destruct q as [[n d] Hcanon]. simpl in *. by subst d.
    + by intros [z [= ->]].
Qed.

Lemma number_lt_of_Z (a b : Z) :
  number_lt (number_of_Z a) (number_of_Z b) = bool_decide (a < b)%Z.
Proof.
  unfold number_lt, number_of_Z.
  apply bool_decide_ext. symmetry. apply Z2Qc_inj_lt.
Qed.

(** The test of the [port] branch. *)
Lemma port_test_iff (port : number) :
  isNaN port || negb (Number_isInteger port)
  || number_lt port (number_of_Z 1) || number_lt (number_of_Z 65535) port
  = false
  ↔ ∃ z, port = number_of_Z z ∧ (1 ≤ z ≤ 65535)%Z.
Proof.
  split.
  - intros Htest.
    apply orb_false_iff in Htest as [Htest Hhi].
    apply orb_false_iff in Htest as [Htest Hlo].
    apply orb_false_iff in Htest as [_ Hint].
    apply negb_false_iff, Number_isInteger_iff in Hint as [z ->].
    rewrite number_lt_of_Z in Hlo, Hhi.
    apply bool_decide_eq_false in Hlo, Hhi. exists z. split; [done|lia].
  - intros (z & -> & Hrange). rewrite !number_lt_of_Z.
    rewrite !bool_decide_eq_false_2 by lia.
    assert (Number_isInteger (number_of_Z z) = true) as ->
      by (apply Number_isInteger_iff; by exists z).
    done.
Qed.

Section type_facts.
Context `{Runtime}.

(** On a value that is not empty the first two tests are passed over. *)
Lemma validateEnvValue_nonempty value keyDef :
  value ≠ "" →
  validateEnvValue value keyDef
  = let type := SchemaKey.type keyDef in
    if bool_decide (type = "string") then Valid
    else if bool_decide (type = "number") || bool_decide (type = "int") then
      validateNumber value keyDef
    else if bool_decide (type = "boolean") then
      if negb (includes booleanWords (toLowerCase value)) then
        Invalid ("Expected boolean, got " +:+ quoted value)
      else Valid
    else if bool_decide (type = "url") then
      try_catch (try! _ ← URL_new value; Return Valid)
                (λ _, Invalid ("Expected valid URL, got " +:+ quoted value))
    else if bool_decide (type = "email") then
      if negb (emailRegex_test value) then
        Invalid ("Expected valid email, got " +:+ quoted value)
      else Valid
    else if bool_decide (type = "enum") then
      match SchemaKey.enum keyDef with
      | Some allowed =>
          if negb (includes allowed value) then
            Invalid ("Expected one of [" +:+ join ", " allowed +:+ "], got "
                     +:+ quoted value)
          else Valid
      | None =>
          Invalid ("Expected one of [undefined], got " +:+ quoted value)
      end
    else if bool_decide (type = "port") then
      let port := Number value in
      if isNaN port || negb (Number_isInteger port)
         || number_lt port (number_of_Z 1)
         || number_lt (number_of_Z 65535) port then
        Invalid ("Expected port number (1-65535), got " +:+ quoted value)
      else Valid
    else Valid.
Proof.
  intros Hne%truthy_string. unfold validateEnvValue. by rewrite Hne.
Qed.

End type_facts.

(** X7.  For a key of type [enum], a value that is not empty is valid
    exactly when it is one of the declared literals, compared as they are
    written; the message of a rejection lists the literals and quotes the
    value.  When the key has no list of literals, every such value is
    rejected. *)
Theorem validateEnvValue_enum `{Runtime} (value : string) (keyDef : SchemaKey.t) :
  SchemaKey.type keyDef = "enum" →
  value ≠ "" →
  validateEnvValue value keyDef
  = match SchemaKey.enum keyDef with
    | Some allowed =>
        if bool_decide (value ∈ allowed) then Valid
        else Invalid ("Expected one of [" +:+ join ", " allowed +:+ "], got "
                      +:+ quoted value)
    | None => Invalid ("Expected one of [undefined], got " +:+ quoted value)
    end
  ∧ (CheckResult.valid (validateEnvValue value keyDef) = true
     ↔ ∃ allowed, SchemaKey.enum keyDef = Some allowed ∧ value ∈ allowed).
Proof.
  intros Htype Hne. rewrite validateEnvValue_nonempty by done. cbv zeta.
  rewrite Htype. simpl. unfold includes.
  destruct (SchemaKey.enum keyDef) as [allowed|].
  - case_bool_decide as Hin; simpl.
    + split; [done|]. split; [|done]. intros _. by exists allowed.
    + split; [done|]. split; [done|]. by intros (? & [= <-] & ?).
  - split; [done|]. split; [done|]. by intros (? & [=] & _).
Qed.

Lemma validateEnvValue_enum_witness :
  @validateEnvValue sample_runtime "Development"
    (test_key "enum" (Some ["development"; "test"; "production"]))
  = Invalid ("Expected one of [development, test, production], got "
             +:+ quoted "Development")
  ∧ CheckResult.valid
      (@validateEnvValue sample_runtime "test"
         (test_key "enum" (Some ["development"; "test"; "production"])))
    = true.
Proof.
  split.
  - exact (proj1 (@validateEnvValue_enum sample_runtime "Development"
                    (test_key "enum" (Some ["development"; "test"; "production"]))
                    eq_refl ltac:(discriminate))).
  - apply (proj2 (@validateEnvValue_enum sample_runtime "test"
                    (test_key "enum" (Some ["development"; "test"; "production"]))
                    eq_refl ltac:(discriminate))).
    eexists. split; [reflexivity|]. set_solver.
Defined.

(** X8.  For a key of type [port], a value that is not empty is valid
    exactly when [Number] reads it as a whole number from 1 to 65535; the
    bounds that the key may declare are not consulted. *)
Theorem validateEnvValue_port `{Runtime} (value : string) (keyDef : SchemaKey.t) :
  SchemaKey.type keyDef = "port" →
  value ≠ "" →
  (CheckResult.valid (validateEnvValue value keyDef) = true
   ↔ ∃ z, Number value = number_of_Z z ∧ (1 ≤ z ≤ 65535)%Z)
  ∧ (CheckResult.valid (validateEnvValue value keyDef) = false →
     validateEnvValue value keyDef
     = Invalid ("Expected port number (1-65535), got " +:+ quoted value)).
Proof.
  intros Htype Hne. rewrite validateEnvValue_nonempty by done. cbv zeta.
  rewrite Htype. simpl. rewrite <-port_test_iff.
  destruct (_ || _ || _ || _); simpl; split; try done; by split.
Qed.

Lemma validateEnvValue_port_witness :
  CheckResult.valid
    (@validateEnvValue sample_runtime "65535"
       (SchemaKey.mk "PORT" "port" None None None None None true false None None
                     (Some (number_of_Z 3000)) (Some (number_of_Z 4000))))
  = true.
Proof.
  apply (proj1 (@validateEnvValue_port sample_runtime "65535"
                  (SchemaKey.mk "PORT" "port" None None None None None true false
                     None None (Some (number_of_Z 3000))
                     (Some (number_of_Z 4000)))
                  eq_refl ltac:(discriminate))).
  exists 65535%Z. split; [vm_compute; reflexivity|lia].
Defined.

(** X9.  For a key of type [number] or [int], a value that is not empty is
    valid exactly when [Number] does not read it as NaN, reads it as a
    whole number if the type is [int], not below the declared minimum and
    not above the declared maximum, the bounds included. *)
Theorem validateEnvValue_number `{Runtime} (value : string)
    (keyDef : SchemaKey.t) :
  SchemaKey.type keyDef = "number" ∨ SchemaKey.type keyDef = "int" →
  value ≠ "" →
  CheckResult.valid (validateEnvValue value keyDef) = true
  ↔ isNaN (Number value) = false
    ∧ (SchemaKey.type keyDef = "int" → Number_isInteger (Number value) = true)
    ∧ (∀ lo, SchemaKey.min keyDef = Some lo → number_lt (Number value) lo = false)
    ∧ (∀ hi, SchemaKey.max keyDef = Some hi → number_lt hi (Number value) = false).
Proof.
  intros Htype Hne. rewrite validateEnvValue_nonempty by done. cbv zeta.
  assert ((if bool_decide (SchemaKey.type keyDef = "string") then Valid
           else if bool_decide (SchemaKey.type keyDef = "number")
                   || bool_decide (SchemaKey.type keyDef = "int")
                then validateNumber value keyDef
                else Valid) = validateNumber value keyDef) as Hbranch.
  { destruct Htype as [-> | ->]; done. }
  transitivity (CheckResult.valid (validateNumber value keyDef) = true).
  { destruct Htype as [Ht | Ht]; rewrite Ht; done. }
  clear Hbranch. unfold validateNumber. cbv zeta.
  destruct (isNaN (Number value)); [by split; [|intros [? _]]|].
  destruct (bool_decide (SchemaKey.type keyDef = "int")) eqn:Hint.
  - apply bool_decide_eq_true in Hint.
    destruct (Number_isInteger (Number value)); simpl.
    + destruct (SchemaKey.min keyDef) as [lo|], (SchemaKey.max keyDef) as [hi|];
        simpl; repeat case_match; simpl; split; try done;
        try (intros _; split_and!; try done; by intros ? [= <-]);
        intros (_ & _ & Hlo & Hhi);
        first [by rewrite (Hlo _ eq_refl) in *|by rewrite (Hhi _ eq_refl) in *].
    + split; [done|]. intros (_ & Hi & _). by specialize (Hi Hint).
  - apply bool_decide_eq_false in Hint. simpl.
    destruct (SchemaKey.min keyDef) as [lo|], (SchemaKey.max keyDef) as [hi|];
      simpl; repeat case_match; simpl; split; try done;
      try (intros _; split_and!; try done; by intros ? [= <-]);
      intros (_ & _ & Hlo & Hhi);
      first [by rewrite (Hlo _ eq_refl) in *|by rewrite (Hhi _ eq_refl) in *].
Qed.

Lemma validateEnvValue_number_witness :
  CheckResult.valid
    (@validateEnvValue sample_runtime "10"
       (SchemaKey.mk "WORKERS" "int" None None None None None true false None None
                     (Some (number_of_Z 10)) (Some (number_of_Z 20))))
  = true.
Proof.
  apply (@validateEnvValue_number sample_runtime "10"
           (SchemaKey.mk "WORKERS" "int" None None None None None true false
              None None (Some (number_of_Z 10)) (Some (number_of_Z 20))));
    [by right|discriminate|].
  split_and!; [vm_compute; reflexivity|intros _; vm_compute; reflexivity| |];
    intros ? [= <-]; vm_compute; reflexivity.
Defined.

(** X10.  A key whose type is [string], or any name other than the seven
    checked ones, accepts every value that is not empty: a type name that
    the validator does not know is not an error. *)
Theorem validateEnvValue_unchecked_type `{Runtime} (value : string)
    (keyDef : SchemaKey.t) :
  SchemaKey.type keyDef
    ∉ ["number"; "int"; "boolean"; "url"; "email"; "enum"; "port"] →
  value ≠ "" →
  validateEnvValue value keyDef = Valid.
Proof.
  intros Htype Hne. rewrite validateEnvValue_nonempty by done. cbv zeta.
  repeat (case_bool_decide;
          [try done; exfalso; apply Htype;
           match goal with Ht : SchemaKey.type keyDef = _ |- _ => rewrite Ht end;
           repeat constructor|];
          simpl).
  done.
Qed.

Lemma validateEnvValue_unchecked_type_witness :
  @validateEnvValue sample_runtime "not a number"
    (parseJsonKey "RETRIES"
       (JsonKeyDef.mk (Some "integer") None None None None None None None None
                      None None (Some (number_of_Z 1)) None))
  = Valid.
Proof.
  apply (@validateEnvValue_unchecked_type sample_runtime); [|discriminate].
  intros Hin.
  repeat (apply elem_of_cons in Hin as [Hin|Hin]; [discriminate|]).
  by apply elem_of_nil in Hin.
Defined.

(** ** What a type error says *)

Section message_facts.
Context `{Runtime}.

Lemma validateNumber_message value keyDef :
  CheckResult.valid (validateNumber value keyDef) = false →
  ∃ message, validateNumber value keyDef = Invalid message
    ∧ ((∃ prefix, message = prefix +:+ quoted value)
       ∨ ∃ rest, message = "Value " +:+ number_toString (Number value) +:+ rest).
Proof.
  unfold validateNumber. cbv zeta.
  repeat case_match; try done; intros _; eexists; (split; [reflexivity|]);
    first [left; eexists; reflexivity | right; eexists; reflexivity].
Qed.

Lemma validateEnvValue_message value keyDef :
  value ≠ "" →
  CheckResult.valid (validateEnvValue value keyDef) = false →
  ∃ message, validateEnvValue value keyDef = Invalid message
    ∧ ((∃ prefix, message = prefix +:+ quoted value)
       ∨ ∃ rest, message = "Value " +:+ number_toString (Number value) +:+ rest).
Proof.
  intros Hne. rewrite validateEnvValue_nonempty by done. cbv zeta.
  repeat match goal with
         | |- context [try_catch (bind ?c _) _] => destruct c; simpl
         | |- context [if ?b then _ else _] => destruct b
         | |- context [match ?o with Some _ => _ | None => _ end] => destruct o
         end;
    try done; try apply validateNumber_message;
    intros _; eexists; (split; [reflexivity|]); left;
    first [ eexists; reflexivity
          | eexists ("Expected one of [" +:+ join ", " _ +:+ "], got ");
            by rewrite !append_assoc ].
Qed.

End message_facts.

(** X11.  The message of a type error repeats the value that was
    rejected, between double quotes or, for a bound, as [Number] read it:
    a run puts the value of a declared key into the message of its type
    error, and the validator does not look at the [secret] flag of the
    key. *)
Theorem type_error_echoes_value `{Runtime} (env : gmap string string)
    (schema : Schema.t) (options : Options.t) (keyName value : string)
    (keyDef : SchemaKey.t) :
  env !! keyName = Some value →
  Schema.keys schema !! keyName = Some keyDef →
  value ≠ "" →
  CheckResult.valid (validateEnvValue value keyDef) = false →
  (∃ issue,
     issue ∈ ValidationResult.errors (validateEnv env schema options)
     ∧ ValidationIssue.key issue = keyName
     ∧ ValidationIssue.type issue = type_
     ∧ ((∃ prefix, ValidationIssue.message issue = prefix +:+ quoted value)
        ∨ ∃ rest, ValidationIssue.message issue
                  = "Value " +:+ number_toString (Number value) +:+ rest))
  ∧ ∀ secret, validateEnvValue value (SchemaKey.set_secret secret keyDef)
              = validateEnvValue value keyDef.
Proof.
  intros Henv Hdef Hne Hinvalid. split; [|done].
  destruct (validateEnvValue_message value keyDef Hne Hinvalid)
    as (message & Hresult & Hmessage).
  exists (ValidationIssue.mk keyName type_ message None). split_and!; try done.
  eapply entryErrors_reported; [done|].
  rewrite (entryErrors_declared _ _ _ _ keyDef) by done.
  apply elem_of_app. left. unfold typeIssues. rewrite Hresult. simpl. by left.
Qed.

Lemma type_error_echoes_value_witness :
  ∃ issue,
    issue ∈ ValidationResult.errors
              (@validateEnv sample_runtime secret_number_env
                 secret_number_schema (Options.mk None None))
    ∧ ValidationIssue.key issue = "SECRET_TOKEN"
    ∧ ValidationIssue.type issue = type_
    ∧ ((∃ prefix, ValidationIssue.message issue = prefix +:+ quoted "hunter2")
       ∨ ∃ rest, ValidationIssue.message issue
                 = "Value " +:+ sample_number_toString (sample_Number "hunter2")
                   +:+ rest).
Proof.
  apply (@type_error_echoes_value sample_runtime secret_number_env
           secret_number_schema (Options.mk None None) "SECRET_TOKEN" "hunter2"
           secret_number_key);
    first [discriminate | vm_compute; reflexivity].
Defined.

(** ** The e-mail expression *)

Lemma plain_not_at c : plain c = true → is_at c = false.
Proof. unfold plain. by destruct (is_space c), (is_at c). Qed.

Lemma forallb_plain l : forallb plain l = true ↔ Forall (λ c, plain c = true) l.
Proof.
  induction l as [|c l IH]; simpl; [by split|].
  rewrite andb_true_iff, Forall_cons, IH. done.
Qed.

Lemma domain_ok_iff (d : list ascii) :
  domain_ok d = true
  ↔ ∃ mid tld, d = mid ++ "."%char :: tld ∧ mid ≠ [] ∧ tld ≠ []
               ∧ Forall (λ c, plain c = true) mid
               ∧ Forall (λ c, plain c = true) tld.
Proof.
  split.
  - induction d as [|c tl IH]; [done|]. destruct tl as [|c' rest]; [done|].
    cbn [domain_ok]. rewrite andb_true_iff, orb_true_iff. intros [Hc [Hdot|Hrec]].
    + apply andb_true_iff in Hdot as [Hdot Hrest].
      apply andb_true_iff in Hdot as [Hdot Hne].
      apply bool_decide_eq_true in Hdot as ->.
      apply negb_true_iff, bool_decide_eq_false in Hne.
      exists [c], rest. split_and!; try done.
      * by apply Forall_singleton.
      * by apply forallb_plain.
    + destruct (IH Hrec) as (mid & tld & Heq & Hmid & Htld & Hpm & Hpt).
      exists (c :: mid), tld. rewrite Heq. split_and!; try done.
      by apply Forall_cons.
  - intros (mid & tld & -> & Hmid & Htld & Hpm & Hpt).
    induction mid as [|c mid IH]; [done|].
    apply Forall_cons in Hpm as [Hc Hpm].
    destruct mid as [|c2 mid].
    + cbn [app domain_ok]. rewrite Hc. unfold is_dot.
      rewrite bool_decide_eq_true_2 by done.
      rewrite (bool_decide_eq_false_2 (tld = [])) by done.
      by rewrite (proj2 (forallb_plain tld) Hpt).
    + specialize (IH ltac:(done) Hpm).
      change ((c :: c2 :: mid) ++ "."%char :: tld)
        with (c :: c2 :: (mid ++ "."%char :: tld)).
      cbn [domain_ok]. rewrite Hc. cbn [andb].
      apply orb_true_iff. by right.
Qed.

Lemma local_then_domain_iff (seen : bool) (l : list ascii) :
  local_then_domain seen l = true
  ↔ ∃ local dom, l = local ++ "@"%char :: dom
                 ∧ Forall (λ c, plain c = true) local
                 ∧ (seen = true ∨ local ≠ [])
                 ∧ domain_ok dom = true.
Proof.
  split.
  - revert seen. induction l as [|c rest IH]; intros seen; [done|].
    cbn [local_then_domain]. destruct (is_at c) eqn:Hat.
    + apply bool_decide_eq_true in Hat as ->.
      rewrite andb_true_iff. intros [-> Hdom].
      exists [], rest. split_and!; try done. by left.
    + rewrite andb_true_iff. intros [Hc Hrec].
      destruct (IH _ Hrec) as (local & dom & -> & Hlocal & _ & Hdom).
      exists (c :: local), dom. split_and!; try done.
      * by apply Forall_cons.
      * by right.
  - intros (local & dom & -> & Hlocal & Hseen & Hdom). revert seen Hseen.
    induction local as [|c local IH]; intros seen Hseen.
    + destruct Hseen as [->|?]; [|done]. cbn [app local_then_domain].
      unfold is_at. by rewrite bool_decide_eq_true_2.
    + apply Forall_cons in Hlocal as [Hc Hlocal].
      cbn [app local_then_domain]. rewrite (plain_not_at c Hc), Hc.
      cbn [andb]. apply IH; [done|by left].
Qed.

(** X12.  For a key of type [email], a value that is not empty is valid
    exactly when it reads [local@mid.tld] with three parts that are not
    empty and hold neither white space nor [@]; this is what the
    expression [/^[^\s@]+@[^\s@]+\.[^\s@]+$/] of the validator accepts. *)
Theorem validateEnvValue_email `{Runtime} (value : string)
    (keyDef : SchemaKey.t) :
  SchemaKey.type keyDef = "email" →
  value ≠ "" →
  CheckResult.valid (validateEnvValue value keyDef) = true
  ↔ ∃ local mid tld : list ascii,
      String.list_ascii_of_string value
      = local ++ "@"%char :: mid ++ "."%char :: tld
      ∧ local ≠ [] ∧ mid ≠ [] ∧ tld ≠ []
      ∧ Forall (λ c, plain c = true) (local ++ mid ++ tld).
Proof.
  intros Htype Hne. rewrite validateEnvValue_nonempty by done. cbv zeta.
  rewrite Htype. simpl.
  transitivity (emailRegex_test value = true).
  { by destruct (emailRegex_test value). }
  unfold emailRegex_test. rewrite local_then_domain_iff. split.
  - intros (local & dom & Heq & Hlocal & [?|Hne'] & Hdom); [done|].
    apply domain_ok_iff in Hdom as (mid & tld & -> & Hmid & Htld & Hpm & Hpt).
    exists local, mid, tld. split_and!; try done.
    by rewrite !Forall_app.
  - intros (local & mid & tld & Heq & Hl & Hm & Ht & Hplain).
    rewrite !Forall_app in Hplain. destruct Hplain as (Hpl & Hpm & Hpt).
    exists local, (mid ++ "."%char :: tld). split_and!; try done; [by right|].
    apply domain_ok_iff. by exists mid, tld.
Qed.

Lemma validateEnvValue_email_witness :
  CheckResult.valid
    (@validateEnvValue sample_runtime "user@example.com" (test_key "email" None))
  = true.
Proof.
  apply (@validateEnvValue_email sample_runtime "user@example.com"
           (test_key "email" None) eq_refl ltac:(discriminate)).
  exists (String.list_ascii_of_string "user"),
         (String.list_ascii_of_string "example"),
         (String.list_ascii_of_string "com").
  split_and!; [reflexivity|discriminate..|].
  apply forallb_plain. vm_compute. reflexivity.
Defined.

(** ** Any number of env files *)

Lemma Object_assign_empty {V} (target : gmap string V) :
  Object_assign target ∅ = target.
Proof. unfold Object_assign. by rewrite (left_id_L ∅ (∪)). Qed.

(** Over a sequence of contents, the last one that has the key gives its
    value. *)
Lemma foldl_Object_assign_lookup {V} (contents : list (gmap string V))
    (target : gmap string V) (k : string) (v : V) :
  foldl Object_assign target contents !! k = Some v
  ↔ (∃ i c, contents !! i = Some c ∧ c !! k = Some v
            ∧ ∀ j c', i < j → contents !! j = Some c' → c' !! k = None)
    ∨ (target !! k = Some v ∧ ∀ c, c ∈ contents → c !! k = None).
Proof.
  induction contents as [|c contents IH] using rev_ind.
  - simpl. split.
    + intros Hk. right. split; [done|]. intros c Hc. by apply elem_of_nil in Hc.
    + intros [(i & c & Hi & _)|[Hk _]]; [by rewrite lookup_nil in Hi|done].
  - rewrite foldl_snoc, lookup_Object_assign.
    destruct (c !! k) as [w|] eqn:Hc.
    + split.
      * intros [= ->]. left. exists (length contents), c. split_and!.
        -- by rewrite lookup_app_r, Nat.sub_diag by lia.
        -- done.
        -- intros j c' Hj Hlook. apply lookup_lt_Some in Hlook.
           rewrite length_app in Hlook. simpl in Hlook. lia.
      * intros [(i & c' & Hi & Hk & Hlast)|[_ Hnone]].
        -- destruct (decide (i = length contents)) as [->|Hne].
           ++ rewrite lookup_app_r, Nat.sub_diag in Hi by lia.
              injection Hi as <-. congruence.
           ++ pose proof (lookup_lt_Some _ _ _ Hi) as Hlt.
              rewrite length_app in Hlt. simpl in Hlt.
              specialize (Hlast (length contents) c ltac:(lia)).
              rewrite lookup_app_r, Nat.sub_diag in Hlast by lia.
              specialize (Hlast eq_refl). congruence.
        -- specialize (Hnone c). rewrite elem_of_app in Hnone.
           rewrite Hnone in Hc; [done|]. right. by left.
    + rewrite IH. split.
      * intros [(i & c' & Hi & Hk & Hlast)|[Hk Hnone]].
        -- left. exists i, c'. split_and!; [|done|].
           ++ by apply lookup_app_l_Some.
           ++ intros j c'' Hj Hlook.
              destruct (decide (j < length contents)) as [Hlt|Hge].
              ** rewrite lookup_app_l in Hlook by done. by eapply Hlast.
              ** apply lookup_lt_Some in Hlook as Hlt'.
                 rewrite length_app in Hlt'. simpl in Hlt'.
                 assert (j = length contents) as -> by lia.
                 rewrite lookup_app_r, Nat.sub_diag in Hlook by lia.
                 injection Hlook as <-. done.
        -- right. split; [done|]. intros c' Hc'.
           apply elem_of_app in Hc' as [?|Hc']; [by apply Hnone|].
           apply list_elem_of_singleton in Hc' as ->. done.
      * intros [(i & c' & Hi & Hk & Hlast)|[Hk Hnone]].
        -- left. exists i, c'.
           assert (i < length contents) as Hlt.
           { pose proof (lookup_lt_Some _ _ _ Hi) as Hlt.
             rewrite length_app in Hlt. simpl in Hlt.
             destruct (decide (i = length contents)) as [->|?]; [|lia].
             rewrite lookup_app_r, Nat.sub_diag in Hi by lia.
             injection Hi as <-. congruence. }
           rewrite lookup_app_l in Hi by done. split_and!; [done..|].
           intros j c'' Hj Hlook. eapply Hlast; [done|].
           by apply lookup_app_l_Some.
        -- right. split; [done|]. intros c' Hc'. apply Hnone.
           apply elem_of_app. by left.
Qed.

Section parser_sequences.
Context `{FileSystem}.

Lemma parseEnvFiles_from_all files merged envPaths read :
  Forall2 (λ envPath file, readEnvFile envPath = Return file) envPaths read →
  parseEnvFiles_from files merged envPaths
  = Return (ParsedEnv.mk (files ++ read)
              (foldl Object_assign merged (EnvFile.content <$> read))).
Proof.
  intros Hread. revert files merged.
  induction Hread as [|envPath file envPaths read Hfile _ IH];
    intros files merged; cbn [parseEnvFiles_from].
  - by rewrite app_nil_r.
  - rewrite Hfile. cbn [bind]. rewrite IH, <-(assoc_L (++)). done.
Qed.

Lemma parseEnvFiles_from_throw files merged before envPath after read message :
  Forall2 (λ envPath file, readEnvFile envPath = Return file) before read →
  readEnvFile envPath = Throw message →
  parseEnvFiles_from files merged (before ++ envPath :: after) = Throw message.
Proof.
  intros Hread Hthrow. revert files merged.
  induction Hread as [|p file before read Hfile _ IH];
    intros files merged; cbn [app parseEnvFiles_from].
  - by rewrite Hthrow.
  - rewrite Hfile. cbn [bind]. apply IH.
Qed.

(** A run of the loop either reads every path or stops at the first one
    that throws. *)
Lemma parseEnvFiles_from_cases (envPaths : list string) :
  (∃ read, Forall2 (λ envPath file, readEnvFile envPath = Return file)
                   envPaths read)
  ∨ (∃ before envPath after read message,
       envPaths = before ++ envPath :: after
       ∧ Forall2 (λ envPath file, readEnvFile envPath = Return file) before read
       ∧ readEnvFile envPath = Throw message).
Proof.
  induction envPaths as [|p envPaths IH].
  - left. exists []. constructor.
  - destruct (readEnvFile p) as [file|message] eqn:Hp.
    + destruct IH as [(read & Hread)|(before & q & after & read & message
                                      & -> & Hread & Hq)].
      * left. exists (file :: read). by constructor.
      * right. exists (p :: before), q, after, (file :: read), message.
        split_and!; [done| |done]. by constructor.
    + right. exists [], p, envPaths, [], message. split_and!; [done| |done].
      constructor.
Qed.

End parser_sequences.

(** X13.  When every path can be read, [parseEnvFiles] returns the
    records of the files in the order of the paths, and the merged mapping
    gives to a key the value of the last file that has it: a key is merged
    exactly when some file has it, with the value of the last such file. *)
Theorem parseEnvFiles_last_wins `{FileSystem} (envPaths : list string)
    (read : list EnvFile.t) :
  Forall2 (λ envPath file, readEnvFile envPath = Return file) envPaths read →
  ∃ r, parseEnvFiles envPaths = Return r
       ∧ ParsedEnv.files r = read
       ∧ ∀ k v,
           ParsedEnv.merged r !! k = Some v
           ↔ ∃ i file,
               read !! i = Some file
               ∧ EnvFile.content file !! k = Some v
               ∧ ∀ j later, i < j → read !! j = Some later →
                            EnvFile.content later !! k = None.
Proof.
  intros Hread. eexists. split_and!.
  - unfold parseEnvFiles. by apply parseEnvFiles_from_all.
  - done.
  - intros k v. cbn [ParsedEnv.merged]. rewrite foldl_Object_assign_lookup.
    split.
    + intros [(i & c & Hi & Hk & Hlast)|[Hk _]]; [|by rewrite lookup_empty in Hk].
      apply list_lookup_fmap_Some in Hi as (file & -> & Hi).
      exists i, file. split_and!; [done..|].
      intros j later Hj Hlater. apply (Hlast j); [done|].
      by rewrite list_lookup_fmap, Hlater.
    + intros (i & file & Hi & Hk & Hlast). left.
      exists i, (EnvFile.content file). split_and!; [|done|].
      * by rewrite list_lookup_fmap, Hi.
      * intros j c Hj Hc.
        apply list_lookup_fmap_Some in Hc as (later & -> & Hlater).
        by eapply Hlast.
Qed.

Lemma parseEnvFiles_last_wins_witness :
  ∃ r, @parseEnvFiles sample_fs [".env"; ".env.production"; ".env.local"]
       = Return r
       ∧ length (ParsedEnv.files r) = 3%nat
       ∧ ParsedEnv.merged r !! "PORT" = Some "4000".
Proof.
  destruct (@parseEnvFiles_last_wins sample_fs
              [".env"; ".env.production"; ".env.local"]
              [base_file; EnvFile.mk ".env.production" false ∅; local_file])
    as (r & Hr & Hfiles & Hmerged).
  { repeat constructor; vm_compute; reflexivity. }
  exists r. split_and!; [done|by rewrite Hfiles|].
  apply Hmerged. exists 2%nat, local_file.
  split_and!; [done|vm_compute; reflexivity|].
  intros [|[|[|j]]] later Hj Hlater; try lia. done.
Defined.

(** X14.  [parseEnvFiles] throws exactly when some path cannot be read or
    parsed, with the error of the first such path, whatever the later
    paths are; that error names the path as it was given, and it only
    arises for a file that exists. *)
Theorem parseEnvFiles_throws_iff `{FileSystem} (envPaths : list string)
    (message : string) :
  (parseEnvFiles envPaths = Throw message
   ↔ ∃ before envPath after,
       envPaths = before ++ envPath :: after
       ∧ (∀ p, p ∈ before → ∃ file, readEnvFile p = Return file)
       ∧ readEnvFile envPath = Throw message)
  ∧ (∀ envPath,
       readEnvFile envPath = Throw message →
       existsSync (resolve envPath) = true
       ∧ ∃ cause, message = "Failed to parse " +:+ envPath +:+ ": " +:+ cause
           ∧ (readFileSync (resolve envPath) = Throw cause
              ∨ ∃ text, readFileSync (resolve envPath) = Return text
                        ∧ parse text = Throw cause)).
Proof.
  split.
  - split.
    + intros Hthrow.
      destruct (parseEnvFiles_from_cases envPaths)
        as [(read & Hread)|(before & p & after & read & msg & -> & Hread & Hp)].
      * unfold parseEnvFiles in Hthrow.
        by rewrite (parseEnvFiles_from_all _ _ _ read) in Hthrow.
      * unfold parseEnvFiles in Hthrow.
        rewrite (parseEnvFiles_from_throw _ _ _ _ _ read msg) in Hthrow by done.
        injection Hthrow as ->. exists before, p, after. split_and!; [done| |done].
        intros q Hq. apply list_elem_of_lookup in Hq as [i Hi].
        destruct (Forall2_lookup_l _ _ _ _ _ Hread Hi) as (file & _ & Hfile).
        by exists file.
    + intros (before & p & after & -> & Hbefore & Hp).
      assert (∃ read, Forall2 (λ envPath file, readEnvFile envPath = Return file)
                              before read) as [read Hread].
      { clear Hp. induction before as [|q before IH]; [exists []; constructor|].
        destruct (Hbefore q) as [file Hfile]; [by left|].
        destruct IH as [read Hread]; [intros ??; apply Hbefore; by right|].
        exists (file :: read). by constructor. }
      unfold parseEnvFiles. by eapply parseEnvFiles_from_throw.
  - intros envPath. unfold readEnvFile. cbv zeta.
    destruct (existsSync (resolve envPath)); [|done].
    destruct (readFileSync (resolve envPath)) as [text|cause] eqn:Hread;
      cbn [bind try_rethrow].
    + destruct (parse text) as [content|cause] eqn:Hparse;
        cbn [bind try_rethrow]; [done|].
      intros [= <-]. split; [done|]. exists cause. split; [done|].
      right. by exists text.
    + intros [= <-]. split; [done|]. exists cause. split; [done|]. by left.
Qed.

(** X15.  A path with no file is recorded as such, with an empty content,
    and does not change the merged mapping, wherever it stands in the
    sequence. *)
Theorem parseEnvFiles_absent_file `{FileSystem} (before after : list string)
    (envPath : string) (r : ParsedEnv.t) :
  existsSync (resolve envPath) = false →
  parseEnvFiles (before ++ after) = Return r →
  readEnvFile envPath = Return (EnvFile.mk (resolve envPath) false ∅)
  ∧ ∃ r', parseEnvFiles (before ++ envPath :: after) = Return r'
          ∧ ParsedEnv.merged r' = ParsedEnv.merged r
          ∧ length (ParsedEnv.files r') = S (length (ParsedEnv.files r)).
Proof.
  intros Habsent Hr.
  assert (readEnvFile envPath = Return (EnvFile.mk (resolve envPath) false ∅))
    as Hfile.
  { unfold readEnvFile. cbv zeta. by rewrite Habsent. }
  split; [done|].
  destruct (parseEnvFiles_from_cases (before ++ after))
    as [(read & Hread)|(b & p & a & read & msg & Heq & Hread & Hp)].
  - apply Forall2_app_inv_l in Hread as (rb & ra & Hb & Ha & ->).
    unfold parseEnvFiles in *.
    rewrite (parseEnvFiles_from_all _ _ _ (rb ++ ra)) in Hr
      by (by apply Forall2_app).
    injection Hr as <-.
    eexists. split_and!.
    + apply (parseEnvFiles_from_all _ _ _
               (rb ++ EnvFile.mk (resolve envPath) false ∅ :: ra)).
      apply Forall2_app; [done|]. by constructor.
    + cbn [ParsedEnv.merged]. rewrite !fmap_app, !foldl_app, fmap_cons.
      cbn [foldl EnvFile.content]. by rewrite Object_assign_empty.
    + cbn [ParsedEnv.files]. rewrite !app_nil_l, !length_app. simpl. lia.
  - unfold parseEnvFiles in Hr. rewrite Heq in Hr.
    by rewrite (parseEnvFiles_from_throw _ _ _ _ _ read msg) in Hr.
Qed.

Lemma parseEnvFiles_absent_file_witness :
  ∃ r', @parseEnvFiles sample_fs [".env"; ".env.test"; ".env.local"] = Return r'
        ∧ ParsedEnv.merged r'
          = {[ "NODE_ENV" := "development"; "PORT" := "4000"; "DEBUG" := "true" ]}
        ∧ length (ParsedEnv.files r') = 3%nat.
Proof.
  destruct (@parseEnvFiles_absent_file sample_fs [".env"] [".env.local"]
              ".env.test"
              (ParsedEnv.mk [base_file; local_file]
                 {[ "NODE_ENV" := "development"; "PORT" := "4000";
                    "DEBUG" := "true" ]}))
    as (_ & r' & Hr' & Hmerged & Hfiles); [vm_compute; reflexivity ..|].
  exists r'. split_and!; [exact Hr'|exact Hmerged|exact Hfiles].
Defined.

(** ** What the front ends produce *)

Lemma number_strict_eq_true x y : number_strict_eq x y = true → x = y.
Proof.
  unfold number_strict_eq.
  destruct x, y; try done; by intros ?%bool_decide_eq_true.
Qed.

Ltac solve_fluent_shape :=
  unfold fluent_shape; simpl; split_and!; try done;
  lazymatch goal with
  | |- _ ∈ _ => repeat constructor
  | |- is_Some None ∨ is_Some None → _ =>
      intros [[]%is_Some_None|[]%is_Some_None]
  | |- is_Some None → _ => intros []%is_Some_None
  | |- is_Some None ↔ _ => split; [intros []%is_Some_None|intros [=]]
  | |- is_Some (Some _) ↔ _ => split; [done|intros _; by eexists]
  | |- _ → _ ∈ _ => intros _; repeat constructor
  end.

Lemma string_branch_name checks key :
  SchemaKey.name (string_branch checks key) = SchemaKey.name key.
Proof. unfold string_branch. by repeat case_match. Qed.

Lemma number_branch_name checks key :
  SchemaKey.name (number_branch checks key) = SchemaKey.name key.
Proof. unfold number_branch. simpl. by repeat case_match. Qed.

Lemma string_branch_shape keyName description secret checks :
  fluent_shape
    (string_branch checks
       (SchemaKey.mk keyName "string" description None None None None
                     true secret None None None None)).
Proof.
  unfold string_branch. cbv zeta.
  destruct (some is_check_url checks), (some is_check_email checks),
           (find is_check_regex checks) as [[]|]; solve_fluent_shape.
Qed.

Lemma number_branch_shape keyName description secret checks :
  fluent_shape
    (number_branch checks
       (SchemaKey.mk keyName "string" description None None None None
                     true secret None None None None)).
Proof.
  unfold number_branch. cbv zeta.
  destruct (some is_check_int checks),
           (find is_check_min checks ≫= check_value) as [lo|],
           (find is_check_max checks ≫= check_value) as [hi|];
    try solve_fluent_shape.
  all: destruct (number_strict_eq lo (number_of_Z 1)) eqn:Hlo;
       destruct (number_strict_eq hi (number_of_Z 65535)) eqn:Hhi;
       try apply number_strict_eq_true in Hlo as ->;
       try apply number_strict_eq_true in Hhi as ->;
       solve_fluent_shape.
Qed.

Lemma parseZodType_name keyName zodType :
  SchemaKey.name (parseZodType keyName zodType) = keyName.
Proof.
  induction zodType as [a checks|a checks|a|a values|a inner IH|a inner IH dv|a];
    try exact IH; destruct a as [[description|] []]; simpl;
    first [ by rewrite string_branch_name | by rewrite number_branch_name
          | done ].
Qed.

(** X16.  Whatever the validator tree, the fluent front end files a key
    under the name it was given, with one of the eight declared types; the
    type is [port] only with the bounds 1 and 65535, there is a list of
    literals exactly for [enum], a pattern only on the string types and
    bounds only on the numeric ones; and it never produces an example, a
    deprecation or a replacement. *)
Theorem parseZodType_shape (keyName : string) (zodType : ZodTypeAny) :
  SchemaKey.name (parseZodType keyName zodType) = keyName
  ∧ fluent_shape (parseZodType keyName zodType).
Proof.
  induction zodType as [a checks|a checks|a|a values|a inner IH|a inner IH dv|a];
    try exact IH; destruct a as [[description|] []]; simpl.
  all: split;
    [ first [ apply string_branch_name | apply number_branch_name | done ]
    | first [ apply string_branch_shape | apply number_branch_shape
            | solve_fluent_shape ] ].
Qed.

(** ** Loading a schema file *)

Section loader_facts.
Context `{Runtime} `{FileSystem} `{ModuleLoader}.

Lemma loadZodShape_lookup filePath shape keyName keyDef :
  Schema.keys (loadZodShape filePath shape) !! keyName = Some keyDef →
  ∃ zodType, shape !! keyName = Some zodType
             ∧ keyDef = parseZodType keyName zodType.
Proof.
  unfold loadZodShape. cbn [Schema.keys]. rewrite map_lookup_imap.
  destruct (shape !! keyName) as [zodType|]; simpl; [|done].
  intros [= <-]. by exists zodType.
Qed.

Lemma loadZodSchema_Return filePath schema :
  loadZodSchema filePath = Return schema →
  Schema.source schema = zod ∧ Schema.path schema = filePath
  ∧ ∀ keyName keyDef,
      Schema.keys schema !! keyName = Some keyDef →
      SchemaKey.name keyDef = keyName.
Proof.
  unfold loadZodSchema. destruct (import_ filePath) as [module|msg]; [|done].
  cbn [bind]. cbv zeta.
  destruct (if truthy (ModuleNamespace.default module)
            then ModuleNamespace.default module
            else ModuleNamespace.schema module) as [[shape|b]|]; try done.
  cbn [try_rethrow]. intros [= <-]. split_and!; [done..|].
  intros keyName keyDef (zodType & _ & ->)%loadZodShape_lookup.
  apply parseZodType_name.
Qed.

Lemma loadJsonSchema_Return filePath schema :
  loadJsonSchema filePath = Return schema →
  Schema.source schema = json ∧ Schema.path schema = filePath
  ∧ ∀ keyName keyDef,
      Schema.keys schema !! keyName = Some keyDef →
      SchemaKey.name keyDef = keyName.
Proof.
  unfold loadJsonSchema.
  destruct (readFileSync filePath) as [content|msg]; [|done]. cbn [bind].
  destruct (JSON_parse content) as [[props|]|msg]; try done.
  cbn [bind try_rethrow]. intros [= <-]. split_and!; [done..|].
  intros keyName keyDef. cbn [Schema.keys]. rewrite map_lookup_imap.
  destruct (props !! keyName) as [entry|]; simpl; [|done].
  intros [= <-]. unfold parseJsonKey. by repeat case_match.
Qed.

Lemma loadZodSchema_Throw filePath message :
  loadZodSchema filePath = Throw message →
  ∃ cause, message = "Failed to load Zod schema: " +:+ cause.
Proof.
  unfold loadZodSchema.
  destruct (bind _ _) as [schema|cause]; [done|].
  cbn [try_rethrow]. intros [= <-]. by exists cause.
Qed.

Lemma loadJsonSchema_Throw filePath message :
  loadJsonSchema filePath = Throw message →
  ∃ cause, message = "Failed to load JSON schema: " +:+ cause.
Proof.
  unfold loadJsonSchema.
  destruct (bind _ _) as [schema|cause]; [done|].
  cbn [try_rethrow]. intros [= <-]. by exists cause.
Qed.

End loader_facts.

(** X17.  A schema that [loadSchema] returns comes from a file that
    exists, whose name ends, in any letter case, in [.ts] or [.js] for the
    fluent front end and in [.json] for the declarative one; it records the
    resolved path, and every key definition is filed under its own name. *)
Theorem loadSchema_returns `{Runtime} `{FileSystem} `{ModuleLoader}
    (schemaPath : string) (schema : Schema.t) :
  loadSchema schemaPath = Return schema →
  let ext := toLowerCase (last_segment (resolve schemaPath)) in
  existsSync (resolve schemaPath) = true
  ∧ Schema.path schema = resolve schemaPath
  ∧ ((ext = "ts" ∨ ext = "js") ∧ Schema.source schema = zod
     ∨ ext = "json" ∧ Schema.source schema = json)
  ∧ ∀ keyName keyDef,
      Schema.keys schema !! keyName = Some keyDef →
      SchemaKey.name keyDef = keyName.
Proof.
  unfold loadSchema. cbv zeta.
  destruct (existsSync (resolve schemaPath)); [|done]. cbn [negb].
  destruct (bool_decide (_ = "ts") || bool_decide (_ = "js")) eqn:Hzod.
  - intros (Hsource & Hpath & Hkeys)%loadZodSchema_Return.
    split_and!; [done..| |].
    + left. split; [|done].
      apply orb_true_iff in Hzod as [?%bool_decide_eq_true|?%bool_decide_eq_true];
        auto.
    + exact Hkeys.
  - destruct (bool_decide (_ = "json")) eqn:Hjson; [|done].
    apply bool_decide_eq_true in Hjson.
    intros (Hsource & Hpath & Hkeys)%loadJsonSchema_Return.
    split_and!; [done..| |exact Hkeys]. by right.
Qed.

Lemma loadSchema_returns_witness :
  ∃ schema,
    @loadSchema sample_runtime project_fs project_loader "env.schema.JSON"
    = Return schema
    ∧ Schema.path schema = "/app/env.schema.JSON"
    ∧ Schema.source schema = json
    ∧ ∀ keyName keyDef,
        Schema.keys schema !! keyName = Some keyDef →
        SchemaKey.name keyDef = keyName.
Proof.
  eexists. split; [vm_compute; reflexivity|].
  match goal with
  | |- Schema.path ?s = _ ∧ _ =>
      destruct (@loadSchema_returns sample_runtime project_fs project_loader
                  "env.schema.JSON" s)
        as (_ & Hpath & _ & Hkeys); [vm_compute; reflexivity|]
  end.
  split_and!; [exact Hpath|reflexivity|exact Hkeys].
Defined.

(** X18.  Every failure of [loadSchema] is one of four: the file does not
    exist; its name has another extension, which the message repeats in
    lower case; or one of the two front ends failed, and then the message
    of the cause comes after the name of that front end. *)
Theorem loadSchema_throws `{Runtime} `{FileSystem} `{ModuleLoader}
    (schemaPath message : string) :
  loadSchema schemaPath = Throw message →
  let fullPath := resolve schemaPath in
  let ext := toLowerCase (last_segment fullPath) in
  (existsSync fullPath = false
   ∧ message = "Schema file not found: " +:+ fullPath)
  ∨ existsSync fullPath = true
    ∧ ((ext ≠ "ts" ∧ ext ≠ "js" ∧ ext ≠ "json"
        ∧ message = "Unsupported schema format: " +:+ ext
                    +:+ ". Use .ts/.js for Zod or .json for JSON schema")
       ∨ ((ext = "ts" ∨ ext = "js")
          ∧ ∃ cause, message = "Failed to load Zod schema: " +:+ cause)
       ∨ (ext = "json"
          ∧ ∃ cause, message = "Failed to load JSON schema: " +:+ cause)).
Proof.
  unfold loadSchema. cbv zeta.
  destruct (existsSync (resolve schemaPath)); cbn [negb];
    [|intros [= <-]; by left].
  intros Hthrow. right. split; [done|]. revert Hthrow.
  case_bool_decide as Hts; cbn [orb].
  { intros ?%loadZodSchema_Throw. right. left. auto. }
  case_bool_decide as Hjs.
  { intros ?%loadZodSchema_Throw. right. left. auto. }
  case_bool_decide as Hjson.
  { intros ?%loadJsonSchema_Throw. right. right. auto. }
  intros [= <-]. by left.
Qed.

Lemma loadSchema_throws_witness :
  @loadSchema sample_runtime project_fs project_loader "notes.TXT"
  = Throw "Schema file not found: /app/notes.TXT"
  ∧ ∃ message,
      @loadSchema sample_runtime project_fs project_loader "notes.txt"
      = Throw message
      ∧ message = "Unsupported schema format: txt. Use .ts/.js for Zod or .json for JSON schema".
Proof.
  split; [vm_compute; reflexivity|].
  eexists. split; [vm_compute; reflexivity|].
  match goal with
  | |- ?m = _ =>
      destruct (@loadSchema_throws sample_runtime project_fs project_loader
                  "notes.txt" m)
        as [[Hnone _]|[_ [(_ & _ & _ & Hmsg)|[[[Hext|Hext] _]|[Hext _]]]]];
        [vm_compute; reflexivity|..]
  end.
  - vm_compute in Hnone. discriminate.
  - etrans; [exact Hmsg|vm_compute; reflexivity].
  - vm_compute in Hext. discriminate.
  - vm_compute in Hext. discriminate.
  - vm_compute in Hext. discriminate.
Defined.

(** ** Redaction at every depth *)

(** X19.  In what [redactSecrets] of [formatJson] returns, no property whose
    key the schema marks secret carries a string other than the literal
    [<redacted>], however deep it sits inside objects and arrays. *)
Theorem redactSecrets_deep (schema : Schema.t) (obj : JsValue)
    (key s : string) :
  field_of (redactSecrets schema obj) key (JsString s) →
  is_secret schema key = true →
  s = "<redacted>".
Proof. apply redactSecrets_field_safe. Qed.

Lemma redactSecrets_deep_witness :
  field_of (redactSecrets secret_schema nested_view)
           "SECRET_TOKEN" (JsString "<redacted>")
  ∧ ("<redacted>" : string) = "<redacted>".
Proof.
  assert (field_of (redactSecrets secret_schema nested_view)
                   "SECRET_TOKEN" (JsString "<redacted>")) as Hfield.
  { vm_compute. eapply field_in_object; [apply list_elem_of_further, list_elem_of_here|].
    eapply field_in_array; [apply list_elem_of_here|].
    apply field_here. apply list_elem_of_further, list_elem_of_here. }
  split; [exact Hfield|].
  apply (redactSecrets_deep secret_schema nested_view "SECRET_TOKEN" _ Hfield).
  vm_compute. reflexivity.
Defined.

Lemma redactProperty_idempotent schema name value :
  redactSecrets schema (redactSecrets schema value) = redactSecrets schema value →
  redactProperty schema name (redactProperty schema name value)
  = redactProperty schema name value.
Proof.
  intros IH. unfold redactProperty.
  destruct (is_secret schema name), (is_string value) eqn:Hstring,
           (is_object value) eqn:Hobject;
    cbn [andb is_string is_object];
    rewrite ?redactSecrets_is_string, ?redactSecrets_is_object,
            ?Hstring, ?Hobject;
    cbn [andb]; done.
Qed.

(** X20.  Redacting twice is redacting once: [redactSecrets] of
    [formatJson] leaves its own output as it is. *)
Theorem redactSecrets_idempotent (schema : Schema.t) (obj : JsValue) :
  redactSecrets schema (redactSecrets schema obj) = redactSecrets schema obj.
Proof.
  induction obj as [| | | | |items IH|fields IH] using JsValue_nested_ind;
    try done.
  - rewrite !redactSecrets_array. f_equal. rewrite List.map_map.
    apply List.map_ext_in. intros item Hitem.
    rewrite Forall_forall in IH. apply IH. by apply list_elem_of_In.
  - rewrite !redactSecrets_object. f_equal. rewrite List.map_map.
    apply List.map_ext_in. intros [name value] Hentry. cbn [fst snd].
    f_equal. rewrite Forall_forall in IH.
    apply list_elem_of_In, IH in Hentry. cbn [snd] in Hentry.
    by apply redactProperty_idempotent.
Qed.



(** ** Arrays in the redactor of [utils/redact] *)

Lemma redactSecretsUtil_array_entries secretKeys items :
  redactSecretsUtil secretKeys (JsArray items)
  = JsObject (array_entries secretKeys 0 items).
Proof.
  cbn [redactSecretsUtil]. f_equal. generalize 0%nat.
  induction items as [|item items IH]; intros index; [done|].
  cbn [array_entries]. by rewrite <- IH.
Qed.

Lemma array_entries_keys secretKeys index items :
  (array_entries secretKeys index items).*1
  = pretty <$> seq index (length items).
Proof.
  revert index. induction items as [|item items IH]; intros index; [done|].
  cbn [array_entries length seq]. rewrite !fmap_cons. cbn [fst].
  by rewrite IH.
Qed.

Lemma array_entries_lookup secretKeys index items i item :
  items !! i = Some item →
  array_entries secretKeys index items !! i
  = Some (pretty (index + i)%nat,
          redactPropertyUtil secretKeys (pretty (index + i)%nat) item).
Proof.
  revert index i. induction items as [|first items IH]; intros index i; [done|].
  destruct i as [|i]; cbn [array_entries].
  - intros [= ->]. by rewrite Nat.add_0_r.
  - intros Hitem. rewrite Nat.add_succ_r. exact (IH (S index) i Hitem).
Qed.

(** X22.  [redactSecrets] of [utils/redact] does not keep arrays: called
    on an array, as it calls itself on an array stored under a property,
    it returns a plain object whose properties are named by the indices
    [0], [1], ... in order, each item treated like the value of a property
    of that name: a string item is masked when its index is among the
    secret keys, and kept otherwise. *)
Theorem redactSecretsUtil_array (secretKeys : list string)
    (items : list JsValue) :
  ∃ fields,
    redactSecretsUtil secretKeys (JsArray items) = JsObject fields
    ∧ fields.*1 = pretty <$> seq 0 (length items)
    ∧ ∀ (i : nat) s, items !! i = Some (JsString s) →
        fields !! i
        = Some (pretty i,
                JsString (if includes secretKeys (pretty i) then redactSecret s
                          else s)).
Proof.
  exists (array_entries secretKeys 0 items). split_and!.
  - apply redactSecretsUtil_array_entries.
  - apply array_entries_keys.
  - intros i s Hitem. rewrite (array_entries_lookup _ _ _ _ _ Hitem).
    cbn [Nat.add]. unfold redactPropertyUtil. cbn [is_string is_object].
    by destruct (includes secretKeys (pretty i)).
Qed.

(** ** Placeholders of the example file *)

Section placeholder_facts.
Context `{Runtime}.

Lemma validateNumber_whole value keyDef (z : Z) :
  Number value = number_of_Z z →
  SchemaKey.min keyDef = None →
  (∀ hi, SchemaKey.max keyDef = Some hi →
         number_lt hi (number_of_Z z) = false) →
  validateNumber value keyDef = Valid.
Proof.
  intros Hnum Hmin Hmax. unfold validateNumber. cbv zeta.
  rewrite Hnum, Hmin. change (isNaN (number_of_Z z)) with false.
  assert (Number_isInteger (number_of_Z z) = true) as ->
    by (apply Number_isInteger_iff; by exists z).
  cbn [negb defined_and]. rewrite andb_false_r.
  destruct (SchemaKey.max keyDef) as [hi|]; cbn [defined_and]; [|done].
  by rewrite (Hmax hi eq_refl).
Qed.

End placeholder_facts.

(** X23.  The placeholder that [getExampleValue] invents for a key without
    example and default passes the type check of that key, on a host that
    reads the numerals [123] and [3000] as these numbers, leaves [true] in
    lower case as it is and accepts the placeholder URL, when the key is
    of a declared type and: a [string] key has no list of literals; a
    [number] or [int] key has no minimum and no maximum below 123; the
    list of literals of an [enum] key starts with a literal that is not
    empty. *)
Theorem getExampleValue_valid `{Runtime} (keyDef : SchemaKey.t) :
  Number "123" = number_of_Z 123 →
  Number "3000" = number_of_Z 3000 →
  toLowerCase "true" = "true" →
  URL_new "https://api.example.com" = Return () →
  SchemaKey.example keyDef = None →
  SchemaKey.default keyDef = None →
  SchemaKey.type keyDef
    ∈ ["string"; "number"; "boolean"; "url"; "email"; "enum"; "int"; "port"] →
  (SchemaKey.type keyDef = "string" → SchemaKey.enum keyDef = None) →
  (SchemaKey.type keyDef = "number" ∨ SchemaKey.type keyDef = "int" →
   SchemaKey.min keyDef = None
   ∧ ∀ hi, SchemaKey.max keyDef = Some hi →
           number_lt hi (number_of_Z 123) = false) →
  (SchemaKey.type keyDef = "enum" →
   ∃ first rest, SchemaKey.enum keyDef = Some (first :: rest) ∧ first ≠ "") →
  ∃ value,
    getExampleValue keyDef = Some value
    ∧ validateEnvValue value keyDef = Valid.
Proof.
  intros H123 H3000 Hlower Hurl Hexample Hdefault Htype Hstring Hnumber Henum.
  unfold getExampleValue. rewrite Hexample, Hdefault. cbv zeta.
  repeat (apply elem_of_cons in Htype as [Htype|Htype]);
    [..|by apply elem_of_nil in Htype].
  - rewrite (Hstring Htype), Htype. cbn. eexists. split; [reflexivity|].
    rewrite validateEnvValue_nonempty by done. by rewrite Htype.
  - destruct Hnumber as [Hmin Hmax]; [by left|].
    rewrite Hmin, Htype. cbn. eexists. split; [reflexivity|].
    rewrite validateEnvValue_nonempty by done. rewrite Htype. cbn.
    by apply (validateNumber_whole _ _ 123).
  - rewrite Htype. cbn. eexists. split; [reflexivity|].
    rewrite validateEnvValue_nonempty by done. rewrite Htype. cbn.
    rewrite Hlower. done.
  - rewrite Htype. cbn. eexists. split; [reflexivity|].
    rewrite validateEnvValue_nonempty by done. rewrite Htype. cbn.
    by rewrite Hurl.
  - rewrite Htype. cbn. eexists. split; [reflexivity|].
    rewrite validateEnvValue_nonempty by done. by rewrite Htype.
  - destruct (Henum Htype) as (first & rest & Hallowed & Hfirst).
    rewrite Hallowed, Htype. cbn.
    apply truthy_string in Hfirst as Htruthy. rewrite Htruthy.
    eexists. split; [reflexivity|].
    rewrite validateEnvValue_nonempty by done. rewrite Htype, Hallowed.
    unfold includes.
    rewrite (bool_decide_eq_true_2 (first ∈ first :: rest))
      by apply list_elem_of_here.
    done.
  - destruct Hnumber as [Hmin Hmax]; [by right|].
    rewrite Hmin, Htype. cbn. eexists. split; [reflexivity|].
    rewrite validateEnvValue_nonempty by done. rewrite Htype. cbn.
    by apply (validateNumber_whole _ _ 123).
  - rewrite Htype. cbn. eexists. split; [reflexivity|].
    rewrite validateEnvValue_nonempty by done. rewrite Htype. cbv zeta.
    rewrite H3000.
    assert (isNaN (number_of_Z 3000) || negb (Number_isInteger (number_of_Z 3000))
            || number_lt (number_of_Z 3000) (number_of_Z 1)
            || number_lt (number_of_Z 65535) (number_of_Z 3000) = false) as ->;
      [|done].
    apply port_test_iff. exists 3000%Z. split; [done|lia].
Qed.

Lemma getExampleValue_valid_witness :
  ∃ value,
    @getExampleValue sample_runtime
      (SchemaKey.mk "RETRIES" "int" None None None None None true false
                    None None None (Some (number_of_Z 500)))
    = Some value
    ∧ @validateEnvValue sample_runtime value
        (SchemaKey.mk "RETRIES" "int" None None None None None true false
                      None None None (Some (number_of_Z 500)))
      = Valid.
Proof.
  apply (@getExampleValue_valid sample_runtime
           (SchemaKey.mk "RETRIES" "int" None None None None None true false
                         None None None (Some (number_of_Z 500)))).
  - vm_compute. reflexivity.
  - vm_compute. reflexivity.
  - reflexivity.
  - reflexivity.
  - reflexivity.
  - reflexivity.
  - repeat constructor.
  - intros [=].
  - intros _. split; [reflexivity|]. intros hi [= <-]. vm_compute. reflexivity.
  - intros [=].
Defined.

(** ** The [.gitignore] check *)

Lemma prefix_spec (p s : string) :
  String.prefix p s = true ↔ ∃ rest, s = p +:+ rest.
Proof.
  revert s. induction p as [|c p IH]; intros s.
  - split; [intros _; by exists s|]. by destruct s.
  - destruct s as [|d s]; simpl.
    + split; [done|]. by intros [rest [=]].
    + destruct (Ascii.ascii_dec c d) as [->|Hne].
      * rewrite IH. split.
        -- intros [rest ->]. by exists rest.
        -- intros [rest [= ->]]. by exists rest.
      * split; [done|]. intros [rest [= <- _]]. done.
Qed.

Lemma string_includes_spec (needle hay : string) :
  string_includes needle hay = true
  ↔ ∃ before after, hay = before +:+ needle +:+ after.
Proof.
  induction hay as [|c hay IH]; cbn [string_includes];
    rewrite orb_true_iff, prefix_spec.
  - split.
    + intros [[rest Heq]|[=]]. by exists "", rest.
    + intros ([|d before] & after & Heq); [|done]. left. by exists after.
  - rewrite IH. split.
    + intros [[rest Heq]|(before & after & ->)].
      * by exists "", rest.
      * by exists (String c before), after.
    + intros ([|d before] & after & Heq).
      * left. by exists after.
      * right. injection Heq as -> ->. by exists before, after.
Qed.

Lemma string_includes_longer (needle more hay : string) :
  string_includes (needle +:+ more) hay = true →
  string_includes needle hay = true.
Proof.
  rewrite !string_includes_spec. intros (before & after & ->).
  exists before, (more +:+ after). by rewrite append_assoc.
Qed.

Section files_facts.
Context `{FileSystem}.

Lemma checkGitignore_readable content :
  existsSync (resolve ".gitignore") = true →
  readFileSync (resolve ".gitignore") = Return content →
  checkGitignore
  = Return (if string_includes ".env" content
            then GitignoreCheck.mk true None
            else GitignoreCheck.mk false
                   (Some ".env files are not ignored in .gitignore")).
Proof.
  intros Hexists Hread. unfold checkGitignore, fileExists, readFile.
  rewrite Hexists, Hread. cbn [negb try_rethrow bind existsb]. cbv zeta.
  destruct (string_includes ".env" content) eqn:Henv; [done|].
  destruct (string_includes ".env.*" content) eqn:Hstar.
  { apply (string_includes_longer ".env" ".*") in Hstar. congruence. }
  destruct (string_includes ".env.local" content) eqn:Hlocal; [|done].
  apply (string_includes_longer ".env" ".local") in Hlocal. congruence.
Qed.

Lemma checkGitignore_absent :
  existsSync (resolve ".gitignore") = false →
  checkGitignore
  = Return (GitignoreCheck.mk false (Some ".gitignore file not found")).
Proof. intros Hexists. unfold checkGitignore, fileExists. by rewrite Hexists. Qed.

Lemma checkGitignore_message gitignoreCheck :
  checkGitignore = Return gitignoreCheck →
  GitignoreCheck.ignored gitignoreCheck = false →
  is_Some (GitignoreCheck.message gitignoreCheck).
Proof.
  unfold checkGitignore.
  destruct (fileExists ".gitignore"); cbn [negb].
  - destruct (readFile ".gitignore") as [content|msg]; [|done]. cbn [bind].
    cbv zeta. destruct (existsb _ _); intros [= <-]; [done|]. by eexists.
  - intros [= <-]. by eexists.
Qed.

End files_facts.

(** X24.  When [.gitignore] can be read, [checkGitignore] answers
    [ignored] exactly when the four characters [.env] occur somewhere in
    its text, whatever stands around them; the patterns [.env.*] and
    [.env.local] add nothing to that.  When they do not occur, the
    message says that the env files are not ignored. *)
Theorem checkGitignore_ignored `{FileSystem} (content : string) :
  existsSync (resolve ".gitignore") = true →
  readFileSync (resolve ".gitignore") = Return content →
  ∃ gitignoreCheck,
    checkGitignore = Return gitignoreCheck
    ∧ (GitignoreCheck.ignored gitignoreCheck = true
       ↔ ∃ before after, content = before +:+ ".env" +:+ after)
    ∧ (GitignoreCheck.ignored gitignoreCheck = false →
       GitignoreCheck.message gitignoreCheck
       = Some ".env files are not ignored in .gitignore").
Proof.
  intros Hexists Hread. eexists. split.
  { by apply checkGitignore_readable. }
  rewrite <- string_includes_spec.
  by destruct (string_includes ".env" content).
Qed.

Lemma checkGitignore_ignored_witness :
  ∃ gitignoreCheck,
    @checkGitignore project_fs = Return gitignoreCheck
    ∧ (GitignoreCheck.ignored gitignoreCheck = true
       ↔ ∃ before after,
           "node_modules" +:+ newline +:+ ".env.local"
           = before +:+ ".env" +:+ after)
    ∧ (GitignoreCheck.ignored gitignoreCheck = false →
       GitignoreCheck.message gitignoreCheck
       = Some ".env files are not ignored in .gitignore").
Proof.
  apply (@checkGitignore_ignored project_fs
           ("node_modules" +:+ newline +:+ ".env.local")).
  - vm_compute. reflexivity.
  - vm_compute. reflexivity.
Defined.

(** ** The command [check] *)

Section command_facts.
Context `{Runtime} `{FileSystem} `{ModuleLoader} `{Terminal}.


End command_facts.



(** X26.  When standard output is no terminal and [--json] is not given,
    [check] writes nothing at all, whatever the validation found, with
    status 0 or 1: neither the report nor the [.gitignore] warning goes
    out.  The one exception is a failure with status 2, whose message is
    written to standard error and is then all that is written. *)
Theorem check_quiet_without_terminal
    `{Runtime} `{FileSystem} `{ModuleLoader} `{Terminal}
    (options : CheckOptions.t) :
  isatty = false →
  truthy (CheckOptions.json options) = false →
  ((check options).1 = [] ∧ ((check options).2 = 0%Z ∨ (check options).2 = 1%Z))
  ∨ ∃ msg, check options = ([console_error ("Error: " +:+ msg)], 2%Z).
Proof.
  intros Htty Hjson. unfold check, logger_info, logger_warn, logger_error.
  rewrite Htty, Hjson.
  destruct (loadSchema _) as [schema|msg]; [|right; by exists msg].
  destruct (parseEnvFiles _) as [parsed|msg]; [|right; by exists msg].
  cbv zeta.
  destruct checkGitignore as [gitignoreCheck|msg]; [|right; by exists msg].
  left. cbn [fst snd app]. split.
  - by destruct (negb _).
  - destruct (ValidationResult.ok _); auto.
Qed.

Lemma check_quiet_without_terminal_witness :
  @check sample_runtime project_fs project_loader (plain_terminal false)
         check_ci
  = ([], 1%Z).
Proof.
  destruct (@check_quiet_without_terminal sample_runtime project_fs
              project_loader (plain_terminal false) check_ci
              eq_refl eq_refl) as [[Hout Hstatus]|[msg Hthrow]].
  - assert ((@check sample_runtime project_fs project_loader
               (plain_terminal false) check_ci).2 = 1%Z) as Hone
      by (vm_compute; reflexivity).
    destruct (@check sample_runtime project_fs project_loader
                (plain_terminal false) check_ci) as [out status].
    cbn [fst snd] in *. by subst.
  - exfalso. apply (f_equal snd) in Hthrow. vm_compute in Hthrow. discriminate.
Defined.

(** ** The report for people *)

(** X27.  In the report that [formatHuman] makes of a validation, the
    section headed [Files checked:] lists the names of the variables of
    the merged mapping, one line each: the orchestrator fills the field
    [files] of its result with the keys of the mapping it is given. *)
Theorem formatHuman_files_are_variables `{Runtime} `{Terminal}
    (env : gmap string string) (schema : Schema.t) (options : Options.t)
    (keyName : string) :
  is_Some (env !! keyName) →
  let lines := humanLines (validateEnv env schema options) in
  formatHuman (validateEnv env schema options) = join newline lines
  ∧ kleur_blue "Files checked:" ∈ lines
  ∧ "  " +:+ kleur_gray "•" +:+ " " +:+ keyName ∈ lines.
Proof.
  intros [value Hvalue]. cbv zeta. split; [done|].
  assert (keyName ∈ ValidationResult.files (validateEnv env schema options))
    as Hfile.
  { unfold validateEnv. rewrite foldl_checkMissing, foldl_checkEntry.
    cbn [ValidationResult.files].
    apply list_elem_of_fmap. exists (keyName, value). split; [done|].
    by apply elem_of_map_to_list. }
  unfold humanLines.
  destruct (ValidationResult.files _) as [|file files] eqn:Hfiles.
  { by apply elem_of_nil in Hfile. }
  rewrite bool_decide_eq_true_2 by (cbn [length]; lia).
  split.
  - apply elem_of_app. right. apply elem_of_app. left.
    apply elem_of_app. left. apply list_elem_of_here.
  - apply elem_of_app. right. apply elem_of_app. left.
    apply elem_of_app. right. apply elem_of_app. left.
    apply list_elem_of_fmap. by exists keyName.
Qed.

Lemma formatHuman_files_are_variables_witness :
  kleur_blue (Terminal := plain_terminal true) "Files checked:"
    ∈ @humanLines (plain_terminal true)
        (@validateEnv sample_runtime debug_env empty_schema
                      (Options.mk None None))
  ∧ "  • DEBUG"
    ∈ @humanLines (plain_terminal true)
        (@validateEnv sample_runtime debug_env empty_schema
                      (Options.mk None None)).
Proof.
  destruct (@formatHuman_files_are_variables sample_runtime
              (plain_terminal true) debug_env empty_schema
              (Options.mk None None) "DEBUG")
    as (_ & Hhead & Hline).
  - vm_compute. by eexists.
  - split; [exact Hhead|exact Hline].
Defined.
